(** * SplashScreen: a model of [src/components/common/SplashScreen.tsx]

    The component owns one effect: on mount it schedules a deferred action
    (1500 ms); when the action fires it calls [onComplete], or asks the
    router for the cleaned [redirectTo] path and schedules a 300 ms check
    that falls back to a direct [location.href] assignment, or asks the
    router for ["/home"].  Everything inside the deferred action sits in a
    [try]/[catch] whose handler logs and sets [location.hash].

    The browser is modelled as an explicit world: a clock, a queue of
    pending timers, the location, and a time-stamped trace of the calls
    the component makes to the outside.  The code that the component
    executes is written in a small state-and-exception monad so that the
    [try]/[catch] reads as in the source. *)

From Stdlib Require Import String Ascii List Bool Arith ZArith Lia.
Import ListNotations.
Local Open Scope string_scope.
Local Open Scope list_scope.
Local Open Scope nat_scope.

Set Implicit Arguments.

(* ------------------------------------------------------------------ *)
(** ** JavaScript strings as used by the component *)

(** [redirectTo.replace(/^\//, '')]: the pattern is anchored and not
    global, so exactly one leading slash is removed when there is one. *)
Definition cleanPath (redirectTo : string) : string :=
  match redirectTo with
  | String "/"%char rest => rest
  | _ => redirectTo
  end.

(** [hay.indexOf(needle)]: position of the first occurrence, [-1] when
    there is none. *)
Fixpoint indexOf_from (i : Z) (hay needle : string) : Z :=
  if prefix needle hay then i
  else match hay with
       | EmptyString => (-1)%Z
       | String _ hay' => indexOf_from (i + 1) hay' needle
       end.

Definition indexOf (hay needle : string) : Z := indexOf_from 0 hay needle.

(** Truthiness of a string in a condition: only [''] is falsy. *)
Definition truthy (s : string) : bool :=
  match s with
  | EmptyString => false
  | String _ _ => true
  end.

(** The mathematical notion [indexOf] is compared with. *)
Definition contains (hay needle : string) : Prop :=
  exists pre post, hay = (pre ++ needle ++ post)%string.

(* ------------------------------------------------------------------ *)
(** ** The outside world *)

(** [window.location], reduced to the two parts the component reads or
    writes.  [hash] holds the fragment reference as last assigned. *)
Record Location : Type := mkLocation {
  pathname : string;
  hash : string
}.

(** Calls that leave the component. *)
Inductive Event : Type :=
| EvOnComplete (cb : nat)        (* onComplete() *)
| EvNavigate (path : string)     (* navigate(path) *)
| EvSetHref (ref : string)       (* window.location.href = ref *)
| EvSetHash (ref : string)       (* window.location.hash = ref *)
| EvConsoleError.                (* console.error(...) *)

(** Props of the component; an absent prop is [None]. *)
Record SplashScreenProps : Type := mkProps {
  onComplete : option nat;     (* identity of the callback *)
  redirectTo : option string
}.

(** What one render hands to the effect: the props and the function
    returned by [useNavigate()], known by its identity. *)
Record Render : Type := mkRender {
  props : SplashScreenProps;
  navigate : nat
}.

(** Bodies of the two [setTimeout] callbacks, as closures over the
    values they captured. *)
Inductive Task : Type :=
| PostTimer (r : Render)
| FallbackCheck (clean : string).

Record Timer : Type := mkTimer {
  tid : nat;
  due : nat;
  task : Task
}.

(** A mounted instance remembers the dependencies of its last effect
    run and the handle that the clean-up will clear. *)
Record Instance : Type := mkInstance {
  rendered : Render;
  timer : nat
}.

Record World : Type := mkWorld {
  now : nat;
  next_id : nat;
  queue : list Timer;
  loc : Location;
  trace : list (nat * Event);
  instance : option Instance
}.

(** How an external call ends: it returns or it throws, and in both
    cases it may have moved the location. *)
Inductive Outcome : Type :=
| Returns (l : Location)
| Throws (l : Location).

(** The collaborators.  [call_onComplete] and [call_navigate] give the
    behaviour of the callback and of the router function with a given
    identity; [setTimeout_throws] says whether the scheduling call made
    inside the [try] block fails; [drift] is whatever else moves the
    location as time passes (the router finishing its work, the user). *)
Record Env : Type := mkEnv {
  call_onComplete : nat -> Location -> Outcome;
  call_navigate : nat -> string -> Location -> Outcome;
  setTimeout_throws : bool;
  drift : nat -> Location -> Location
}.

(* ------------------------------------------------------------------ *)
(** ** A state-and-exception monad over the world *)

Inductive Result (A : Type) : Type :=
| Ok (a : A)
| Exn.
Arguments Exn {A}.

Definition M (A : Type) : Type := World -> World * Result A.

Definition ret {A} (a : A) : M A := fun w => (w, Ok a).

Definition bind {A B} (m : M A) (k : A -> M B) : M B :=
  fun w => match m w with
           | (w', Ok a) => k a w'
           | (w', Exn) => (w', Exn)
           end.

(** [try { body } catch (error) { handler }] *)
Definition try_catch {A} (body handler : M A) : M A :=
  fun w => match body w with
           | (w', Ok a) => (w', Ok a)
           | (w', Exn) => handler w'
           end.

Notation "m1 ;; m2" := (bind m1 (fun _ => m2))
  (at level 61, right associativity).

(** World updates. *)
Definition with_loc (l : Location) (w : World) : World :=
  mkWorld (now w) (next_id w) (queue w) l (trace w) (instance w).

Definition with_queue (q : list Timer) (w : World) : World :=
  mkWorld (now w) (next_id w) q (loc w) (trace w) (instance w).

Definition with_instance (i : option Instance) (w : World) : World :=
  mkWorld (now w) (next_id w) (queue w) (loc w) (trace w) i.

Definition emit (e : Event) (w : World) : World :=
  mkWorld (now w) (next_id w) (queue w) (loc w)
          (trace w ++ [(now w, e)]) (instance w).

(** An external call is recorded, then takes effect. *)
Definition external (e : Event) (o : Location -> Outcome) : M unit :=
  fun w => match o (loc w) with
           | Returns l => (with_loc l (emit e w), Ok tt)
           | Throws l => (with_loc l (emit e w), Exn)
           end.

(** [setTimeout(task, delay)] with the platform's behaviour: a fresh
    handle, the timer appended to the queue. *)
Definition setTimeout (k : Task) (delay : nat) (w : World) : World * nat :=
  (mkWorld (now w) (S (next_id w))
           (queue w ++ [mkTimer (next_id w) (now w + delay) k])
           (loc w) (trace w) (instance w),
   next_id w).

(** [clearTimeout(id)]: a handle that is not pending is ignored. *)
Definition clearTimeout (id : nat) (w : World) : World :=
  with_queue (filter (fun t => negb (Nat.eqb (tid t) id)) (queue w)) w.

(** [window.location.href = ref] for a reference that starts with [#]:
    resolved against the current address it replaces the fragment only. *)
Definition set_location_href (ref : string) : M unit :=
  fun w => (with_loc (mkLocation (pathname (loc w)) ref) (emit (EvSetHref ref) w),
            Ok tt).

(** [window.location.hash = ref] *)
Definition set_location_hash (ref : string) : M unit :=
  fun w => (with_loc (mkLocation (pathname (loc w)) ref) (emit (EvSetHash ref) w),
            Ok tt).

(** [console.error(...)] *)
Definition console_error : M unit :=
  fun w => (emit EvConsoleError w, Ok tt).

(* ------------------------------------------------------------------ *)
(** ** The component *)

Section Component.

Variable env : Env.

(** [onComplete()] *)
Definition invoke_onComplete (cb : nat) : M unit :=
  external (EvOnComplete cb) (call_onComplete env cb).

(** [navigate(path)] *)
Definition navigate_to (nav : nat) (path : string) : M unit :=
  external (EvNavigate path) (call_navigate env nav path).

(** The [setTimeout] call of the redirect branch, which sits inside the
    [try] block: when it throws, nothing is scheduled. *)
Definition schedule_fallback (clean : string) : M unit :=
  fun w => if setTimeout_throws env then (w, Exn)
           else (fst (setTimeout (FallbackCheck clean) 300 w), Ok tt).

(** Body of the inner timer (source lines 46-51). *)
Definition fallback_check (clean : string) : M unit :=
  fun w => if (indexOf (pathname (loc w)) clean =? -1)%Z
           then set_location_href ("#/" ++ clean)%string w
           else ret tt w.

(** The [try] block (source lines 36-55). *)
Definition guarded_action (r : Render) : M unit :=
  match onComplete (props r) with
  | Some cb => invoke_onComplete cb
  | None =>
      match redirectTo (props r) with
      | Some target =>
          if truthy target then
            let clean := cleanPath target in
            navigate_to (navigate r) clean ;;
            schedule_fallback clean
          else navigate_to (navigate r) "/home"
      | None => navigate_to (navigate r) "/home"
      end
  end.

(** The [catch] block (source lines 57-59). *)
Definition catch_block : M unit :=
  console_error ;; set_location_hash "#/home".

(** Body of the outer timer (source lines 34-61). *)
Definition post_timer_action (r : Render) : M unit :=
  try_catch (guarded_action r) catch_block.

Definition run_task (k : Task) : M unit :=
  match k with
  | PostTimer r => post_timer_action r
  | FallbackCheck clean => fallback_check clean
  end.

(** *** The event loop *)

Definition is_pending (id : nat) (w : World) : bool :=
  existsb (fun t => Nat.eqb (tid t) id) (queue w).

(** A due timer leaves the queue, then its callback runs.  An exception
    leaving a timer callback is reported by the loop and goes no
    further. *)
Definition fire (w : World) (t : Timer) : World :=
  if is_pending (tid t) w
  then fst (run_task (task t) (clearTimeout (tid t) w))
  else w.

(** One unit of time passes: the clock advances, the surroundings may
    move the location, and the timers that have become due fire in the
    order in which they were scheduled. *)
Definition tick (w : World) : World :=
  let w1 := mkWorld (S (now w)) (next_id w) (queue w)
                    (drift env (S (now w)) (loc w)) (trace w) (instance w) in
  fold_left fire (filter (fun t => Nat.leb (due t) (now w1)) (queue w1)) w1.

Fixpoint advance (n : nat) (w : World) : World :=
  match n with
  | O => w
  | S n' => advance n' (tick w)
  end.

(** *** The effect and the life cycle (source lines 32-64) *)

Definition option_eqb {A} (eqb : A -> A -> bool) (x y : option A) : bool :=
  match x, y with
  | Some a, Some b => eqb a b
  | None, None => true
  | _, _ => false
  end.

(** The dependency array [[onComplete, redirectTo, navigate]], compared
    element by element. *)
Definition same_deps (r r' : Render) : bool :=
  option_eqb Nat.eqb (onComplete (props r)) (onComplete (props r')) &&
  option_eqb String.eqb (redirectTo (props r)) (redirectTo (props r')) &&
  Nat.eqb (navigate r) (navigate r').

(** Running the effect: the outer [setTimeout(..., 1500)]; the handle
    is kept for the clean-up [() => clearTimeout(timer)]. *)
Definition run_effect (r : Render) (w : World) : World :=
  let (w', id) := setTimeout (PostTimer r) 1500 w in
  with_instance (Some (mkInstance r id)) w'.

Definition mount (r : Render) (w : World) : World := run_effect r w.

Definition unmount (w : World) : World :=
  match instance w with
  | Some i => with_instance None (clearTimeout (timer i) w)
  | None => w
  end.

(** A later render: when a dependency changed the clean-up of the
    previous effect runs, then the effect runs again. *)
Definition rerender (r' : Render) (w : World) : World :=
  match instance w with
  | Some i =>
      if same_deps (rendered i) r' then w
      else run_effect r' (clearTimeout (timer i) w)
  | None => w
  end.

Inductive Action : Type :=
| Tick
| Rerender (r : Render)
| Unmount.

Definition step (w : World) (a : Action) : World :=
  match a with
  | Tick => tick w
  | Rerender r => rerender r w
  | Unmount => unmount w
  end.

Definition run (s : list Action) (w : World) : World := fold_left step s w.

End Component.

(** A page that has just loaded: nothing pending, nothing recorded. *)
Definition boot (t0 : nat) (l : Location) : World :=
  mkWorld t0 1 [] l [] None.

(* ------------------------------------------------------------------ *)
(** ** Rendering: the dark-mode flag (source lines 67-69) *)

(** What the three reads return when [window] is defined. *)
Record Appearance : Type := mkAppearance {
  root_has_dark : bool;            (* documentElement.classList.contains('dark') *)
  stored_theme : option string;    (* localStorage.getItem('theme') *)
  prefers_dark : bool              (* matchMedia('(prefers-color-scheme: dark)').matches *)
}.

(** Truthiness of the value [getItem] returns ([null] or a string). *)
Definition truthy_item (v : option string) : bool :=
  match v with
  | Some s => truthy s
  | None => false
  end.

(** [None] stands for an environment without [window]. *)
Definition isDarkMode (win : option Appearance) : bool :=
  match win with
  | None => false
  | Some a =>
      root_has_dark a || (negb (truthy_item (stored_theme a)) && prefers_dark a)
  end.

(* ------------------------------------------------------------------ *)
(** ** Reading a trace *)

(** The router requests of a trace, with their times. *)
Definition navigations (tr : list (nat * Event)) : list (nat * string) :=
  flat_map (fun x => match snd x with
                     | EvNavigate p => [(fst x, p)]
                     | _ => []
                     end) tr.

(** The callback invocations of a trace. *)
Definition completions (tr : list (nat * Event)) : list (nat * nat) :=
  flat_map (fun x => match snd x with
                     | EvOnComplete cb => [(fst x, cb)]
                     | _ => []
                     end) tr.

(** The direct [location.href] assignments of a trace. *)
Definition href_writes (tr : list (nat * Event)) : list (nat * string) :=
  flat_map (fun x => match snd x with
                     | EvSetHref ref => [(fst x, ref)]
                     | _ => []
                     end) tr.

(** The [console.error] entries of a trace. *)
Definition error_logs (tr : list (nat * Event)) : list nat :=
  flat_map (fun x => match snd x with
                     | EvConsoleError => [fst x]
                     | _ => []
                     end) tr.

Definition is_post_timer (t : Timer) : bool :=
  match task t with
  | PostTimer _ => true
  | FallbackCheck _ => false
  end.

(** The outer timers that are pending. *)
Definition outer_pending (w : World) : list Timer :=
  filter is_post_timer (queue w).

Definition is_href_write (x : nat * Event) : Prop :=
  exists ref, snd x = EvSetHref ref.

Definition threw (o : Outcome) : bool :=
  match o with
  | Returns _ => false
  | Throws _ => true
  end.

Definition landed (o : Outcome) : Location :=
  match o with
  | Returns l => l
  | Throws l => l
  end.

(** The location after [n] units of time in which nothing of the
    component runs, starting at time [t]. *)
Fixpoint drift_through (env : Env) (t n : nat) (l : Location) : Location :=
  match n with
  | O => l
  | S n' => drift_through env (S t) n' (drift env (S t) l)
  end.

(** The world after [n] such units. *)
Definition idle (env : Env) (n : nat) (w : World) : World :=
  mkWorld (now w + n) (next_id w) (queue w)
          (drift_through env (now w) n (loc w)) (trace w) (instance w).

(** The world in which the only pending timer, due [n] units from
    [w], is about to run its callback. *)
Definition at_expiry (env : Env) (n : nat) (w : World) : World :=
  with_queue [] (idle env n w).

(** Number of time units in a script. *)
Definition ticks (s : list Action) : nat :=
  length (filter (fun a => match a with Tick => true | _ => false end) s).

(** The world in which the outer timer of a freshly mounted instance
    runs its callback. *)
Definition at_fire (env : Env) (r : Render) (t0 : nat) (l : Location) : World :=
  mkWorld (t0 + 1500) 2 [] (drift_through env t0 1500 l) []
          (Some (mkInstance r 1)).

(** *** The redirect branch, step by step *)

(** Render of an instance that is given [redirectTo] only. *)
Definition redirecting (target : string) (nav : nat) : Render :=
  mkRender (mkProps None (Some target)) nav.

(** How the router request of such an instance, mounted at [t0] on
    location [l], ends. *)
Definition requested (env : Env) (target : string) (nav t0 : nat)
    (l : Location) : Outcome :=
  call_navigate env nav (cleanPath target) (drift_through env t0 1500 l).

(** The world right after a deferred action that went through. *)
Definition dispatched (env : Env) (target : string) (nav t0 : nat)
    (l : Location) : World :=
  mkWorld (t0 + 1500) 3
          [mkTimer 2 (t0 + 1500 + 300) (FallbackCheck (cleanPath target))]
          (landed (requested env target nav t0 l))
          [(t0 + 1500, EvNavigate (cleanPath target))]
          (Some (mkInstance (redirecting target nav) 1)).

(** The location the fallback check looks at. *)
Definition checked (env : Env) (target : string) (nav t0 : nat)
    (l : Location) : Location :=
  drift_through env (t0 + 1500) 300 (landed (requested env target nav t0 l)).

(** *** Sample surroundings *)

(** A hash-based router: requests succeed and the pathname never moves;
    the callback returns; nothing else touches the location. *)
Definition env_hash_router : Env :=
  mkEnv (fun _ l => Returns l) (fun _ _ l => Returns l) false (fun _ l => l).

(** A path-based router: a request puts the target under the root. *)
Definition env_path_router : Env :=
  mkEnv (fun _ l => Returns l)
        (fun _ p l => Returns (mkLocation ("/" ++ cleanPath p)%string (hash l)))
        false (fun _ l => l).

(** A router and a callback that throw. *)
Definition env_throwing : Env :=
  mkEnv (fun _ l => Throws l) (fun _ _ l => Throws l) false (fun _ l => l).

(** A platform on which the scheduling call inside the [try] fails. *)
Definition env_no_timers : Env :=
  mkEnv (fun _ l => Returns l) (fun _ _ l => Returns l) true (fun _ l => l).

Definition root_location : Location := mkLocation "/" "".

Definition render_menu : Render := redirecting "/menu" 0.

(** The three calls of the [try] block. *)
Inductive Call : Type :=
| CallOnComplete
| CallNavigate
| CallSetTimeout.

(** The call of the [try] block that throws when the deferred action
    of render [r] runs at location [l], if one does. *)
Definition failing_call (env : Env) (r : Render) (l : Location) : option Call :=
  match onComplete (props r) with
  | Some cb =>
      if threw (call_onComplete env cb l) then Some CallOnComplete else None
  | None =>
      let path := match redirectTo (props r) with
                  | Some target => if truthy target then cleanPath target
                                   else "/home"
                  | None => "/home"
                  end in
      let scheduling := match redirectTo (props r) with
                        | Some target => truthy target
                        | None => false
                        end in
      if threw (call_navigate env (navigate r) path l) then Some CallNavigate
      else if scheduling && setTimeout_throws env then Some CallSetTimeout
      else None
  end.

(** A stored theme preference: the item exists and names something.
    An empty string under the key is treated by the component like a
    missing item. *)
Definition has_stored_theme (a : Appearance) : Prop :=
  exists s, stored_theme a = Some s /\ s <> "".

(** A world in which the component has done nothing yet: nothing is
    recorded, every pending timer is due at [bound] or later, and the
    pending timers are those of the mounted instance's handle. *)
Definition waiting (bound : nat) (w : World) : Prop :=
  trace w = [] /\
  (forall t, In t (queue w) -> bound <= due t) /\
  match instance w with
  | Some i => forall t, In t (queue w) -> tid t = timer i
  | None => queue w = []
  end.

(** The outer timers of a world belong to the mounted instance's
    current handle, and there is at most one of them. *)
Definition owned (w : World) : Prop :=
  match instance w with
  | Some i => (forall t, In t (outer_pending w) -> tid t = timer i) /\
              length (outer_pending w) <= 1
  | None => outer_pending w = []
  end.

(** A world without an instance and without outer timers. *)
Definition disposed (w : World) : Prop :=
  instance w = None /\ outer_pending w = [].

(** *** Further notions used below *)

(** [className] of the root element (source line 72): the template
    literal keeps the space after the first class in both cases. *)
Definition className (win : option Appearance) : string :=
  ("splash-screen " ++ (if isDarkMode win then "dark-mode" else ""))%string.

(** Every pending outer timer was scheduled by the last effect run of
    the mounted instance: it carries that render's values and its handle
    is the one the clean-up will clear. *)
Definition current (w : World) : Prop :=
  forall t r0, In t (queue w) -> task t = PostTimer r0 ->
    exists i, instance w = Some i /\ rendered i = r0 /\ tid t = timer i.

(** A script in which time passes and the component is rendered again
    with the values [r] it already has. *)
Definition same_render_script (r : Render) (s : list Action) : Prop :=
  Forall (fun a => a = Tick \/ a = Rerender r) s.

(** Handles are handed out in increasing order: every pending timer
    and the handle kept by the instance are below the next handle, and no
    pending fallback check has the handle that the clean-up clears. *)
Definition fresh (w : World) : Prop :=
  (forall t, In t (queue w) -> tid t < next_id w) /\
  (forall i, instance w = Some i -> timer i < next_id w) /\
  (forall t i, In t (queue w) -> instance w = Some i ->
               is_post_timer t = false -> tid t <> timer i).

(* ------------------------------------------------------------------ *)
(** ** String search *)

Lemma prefix_iff_append (needle hay : string) :
  prefix needle hay = true <-> exists post, hay = (needle ++ post)%string.
Proof.
  revert hay.
  induction needle as [|a needle IH]; intros [|b hay].
  - split; [intros _; now exists "" | reflexivity].
  - split; [intros _; now exists (String b hay) | reflexivity].
  - split; [discriminate | intros [post H]; discriminate].
  - change (prefix (String a needle) (String b hay))
      with (if ascii_dec a b then prefix needle hay else false).
    destruct (ascii_dec a b) as [->|Hab].
    + rewrite IH. split; intros [post H]; exists post.
      * simpl. now subst.
      * now injection H.
    + split; [discriminate|].
      intros [post H]. injection H as H1 H2. congruence.
Qed.

Lemma indexOf_from_unfold (i : Z) (hay needle : string) :
  indexOf_from i hay needle =
  if prefix needle hay then i
  else match hay with
       | EmptyString => (-1)%Z
       | String _ hay' => indexOf_from (i + 1) hay' needle
       end.
Proof. destruct hay; reflexivity. Qed.

Lemma indexOf_from_absent (hay needle : string) :
  forall i, (0 <= i)%Z ->
    (indexOf_from i hay needle = -1)%Z <-> ~ contains hay needle.
Proof.
  induction hay as [|c hay IH]; intros i Hi; rewrite indexOf_from_unfold.
  - destruct (prefix needle "") eqn:Hp.
    + split; [lia|]. intros Hn. exfalso. apply Hn.
      apply prefix_iff_append in Hp as [post Hp].
      exists "", post. exact Hp.
    + split; [intros _|reflexivity].
      intros (pre & post & H).
      destruct pre; [|discriminate].
      assert (prefix needle "" = true) by (apply prefix_iff_append; eauto).
      congruence.
  - destruct (prefix needle (String c hay)) eqn:Hp.
    + split; [lia|]. intros Hn. exfalso. apply Hn.
      apply prefix_iff_append in Hp as [post Hp].
      exists "", post. exact Hp.
    + rewrite IH by lia. split; intros Hn (pre & post & H); apply Hn.
      * destruct pre as [|c' pre].
        -- assert (prefix needle (String c hay) = true)
             by (apply prefix_iff_append; eauto).
           congruence.
        -- injection H as _ H. exists pre, post. exact H.
      * exists (String c pre), post. simpl. now rewrite H.
Qed.

Lemma indexOf_absent (hay needle : string) :
  (indexOf hay needle = -1)%Z <-> ~ contains hay needle.
Proof. apply indexOf_from_absent. lia. Qed.

Lemma indexOf_empty (hay : string) : indexOf hay "" = 0%Z.
Proof. unfold indexOf. destruct hay; reflexivity. Qed.

Example cleanPath_menu : cleanPath "/menu" = "menu".
Proof. reflexivity. Qed.

Example cleanPath_double_slash : cleanPath "//menu" = "/menu".
Proof. reflexivity. Qed.

Example cleanPath_relative : cleanPath "menu/" = "menu/".
Proof. reflexivity. Qed.

Example indexOf_found : indexOf "/app/menu" "menu" = 5%Z.
Proof. reflexivity. Qed.

Example indexOf_missing : indexOf "/" "menu" = (-1)%Z.
Proof. reflexivity. Qed.

Lemma cleanPath_slash (rest : string) : cleanPath (String "/"%char rest) = rest.
Proof. reflexivity. Qed.

Lemma cleanPath_no_slash (s : string) :
  prefix "/" s = false -> cleanPath s = s.
Proof.
  destruct s as [|c s]; [reflexivity|]. simpl.
  destruct (ascii_dec "/"%char c) as [<-|Hc]; [destruct s; discriminate|].
  intros _. unfold cleanPath.
  destruct c as [[] [] [] [] [] [] [] []]; try reflexivity. congruence.
Qed.

(* ------------------------------------------------------------------ *)
(** ** The event loop *)

Section Loop.

Variable env : Env.

Lemma advance_add (n m : nat) (w : World) :
  advance env (n + m) w = advance env m (advance env n w).
Proof. revert w. induction n as [|n IH]; intros w; simpl; auto. Qed.

Lemma advance_S (n : nat) (w : World) :
  advance env (S n) w = advance env n (tick env w).
Proof. reflexivity. Qed.

Lemma filter_none {A} (f : A -> bool) (l : list A) :
  (forall x, In x l -> f x = false) -> filter f l = [].
Proof.
  induction l as [|a l IH]; intros H; simpl; [reflexivity|].
  rewrite (H a) by now left. apply IH. intros x Hx. apply H. now right.
Qed.

(** A unit of time in which no timer is due only moves the clock and
    lets the location drift. *)
Lemma tick_idle (w : World) :
  (forall t, In t (queue w) -> S (now w) < due t) ->
  tick env w = idle env 1 w.
Proof.
  intros H. unfold tick, idle. simpl.
  rewrite filter_none.
  - simpl. f_equal. lia.
  - intros t Ht. apply Nat.leb_gt. now apply H.
Qed.

Lemma advance_idle (n : nat) :
  forall w, (forall t, In t (queue w) -> now w + n < due t) ->
            advance env n w = idle env n w.
Proof.
  induction n as [|n IH]; intros w H.
  - unfold idle. simpl. destruct w; simpl. f_equal. lia.
  - simpl. rewrite tick_idle by (intros t Ht; specialize (H t Ht); lia).
    rewrite IH.
    + unfold idle. simpl.
      replace (now w + 1) with (S (now w)) by lia.
      f_equal. lia.
    + simpl. intros t Ht. specialize (H t Ht). lia.
Qed.

Lemma trace_idle (n : nat) (w : World) : trace (idle env n w) = trace w.
Proof. reflexivity. Qed.

Lemma queue_idle (n : nat) (w : World) : queue (idle env n w) = queue w.
Proof. reflexivity. Qed.

Lemma instance_idle (n : nat) (w : World) :
  instance (idle env n w) = instance w.
Proof. reflexivity. Qed.

(** With nothing pending, nothing ever happens. *)
Lemma advance_quiet (n : nat) (w : World) :
  queue w = [] -> advance env n w = idle env n w.
Proof. intros H. apply advance_idle. rewrite H. intros t []. Qed.

Lemma drift_through_last (d : nat) :
  forall t l, drift_through env t (S d) l
              = drift env (S (t + d)) (drift_through env t d l).
Proof.
  induction d as [|d IH]; intros t l.
  - simpl. now rewrite Nat.add_0_r.
  - change (drift_through env t (S (S d)) l)
      with (drift_through env (S t) (S d) (drift env (S t) l)).
    rewrite IH. simpl. now rewrite Nat.add_succ_r.
Qed.

(** A world whose only pending timer is due in [S d] units reaches, after
    exactly that time, the result of the timer's callback. *)
Lemma advance_single (d : nat) (w : World) (t : Timer) :
  queue w = [t] -> due t = now w + S d ->
  advance env (S d) w = fst (run_task env (task t) (at_expiry env (S d) w)).
Proof.
  intros Hq Hd.
  replace (S d) with (d + 1) at 1 by lia.
  rewrite advance_add, (advance_idle d w)
    by (rewrite Hq; intros t' [<-|[]]; lia).
  simpl. unfold tick. simpl. rewrite Hq. simpl.
  replace (due t <=? S (now w + d)) with true
    by (symmetry; apply Nat.leb_le; lia).
  simpl. unfold fire, is_pending. simpl. rewrite Nat.eqb_refl. simpl.
  unfold clearTimeout, at_expiry, with_queue. simpl.
  rewrite Nat.eqb_refl. simpl.
  replace (now w + S d) with (S (now w + d)) by lia.
  repeat f_equal.
  symmetry. apply (drift_through_last d (now w) (loc w)).
Qed.

Lemma mount_boot (r : Render) (t0 : nat) (l : Location) :
  mount r (boot t0 l)
  = mkWorld t0 2 [mkTimer 1 (t0 + 1500) (PostTimer r)] l []
            (Some (mkInstance r 1)).
Proof. reflexivity. Qed.

(** Until the delay has elapsed a mounted instance does nothing. *)
Lemma before_expiry (r : Render) (t0 : nat) (l : Location) (k : nat) :
  k < 1500 ->
  advance env k (mount r (boot t0 l)) = idle env k (mount r (boot t0 l)).
Proof.
  intros Hk. apply advance_idle. rewrite mount_boot.
  intros t [<-|[]]. simpl. lia.
Qed.

(** When it has elapsed, the deferred action runs. *)
Lemma outer_timer_fires (r : Render) (t0 : nat) (l : Location) :
  advance env 1500 (mount r (boot t0 l))
  = fst (post_timer_action env r (at_fire env r t0 l)).
Proof.
  change 1500 with (S 1499) at 1.
  rewrite (@advance_single 1499 (mount r (boot t0 l))
             (mkTimer 1 (t0 + 1500) (PostTimer r))) by reflexivity.
  reflexivity.
Qed.

End Loop.

Arguments advance : simpl never.
Arguments drift_through : simpl never.
Opaque advance drift_through.

(* ------------------------------------------------------------------ *)
(** ** The deferred action, branch by branch *)

Ltac run_action :=
  unfold post_timer_action, try_catch, guarded_action, catch_block,
    invoke_onComplete, navigate_to, schedule_fallback, external, bind,
    console_error, set_location_hash;
  simpl.

(** C8: with [onComplete] absent, [redirectTo = ""] is falsy: the
    deferred action is the one of an instance without [redirectTo], so the
    router is asked for ["/home"] once and no fallback check is pending. *)
Theorem empty_redirect_is_absent :
  forall (env : Env) (nav t0 : nat) (l : Location),
    let r := mkRender (mkProps None (Some "")) nav in
    let w0 := mount r (boot t0 l) in
    (forall w, post_timer_action env r w
               = post_timer_action env (mkRender (mkProps None None) nav) w) /\
    (forall n, navigations (trace (advance env (1500 + n) w0))
               = [(t0 + 1500, "/home")]) /\
    (forall n, queue (advance env (1500 + n) w0) = []).
Proof.
  intros env nav t0 l r w0. subst r w0. split; [reflexivity|].
  split; intros n; rewrite advance_add, outer_timer_fires;
    run_action;
    destruct (call_navigate env nav "/home" (drift_through env t0 1500 l));
    simpl; now rewrite advance_quiet.
Qed.

(* ------------------------------------------------------------------ *)
(** ** The redirect branch *)

Section Redirect.

Variable env : Env.
Variables (target : string) (nav t0 : nat) (l : Location).
Hypothesis target_truthy : truthy target = true.

Local Abbreviation clean := (cleanPath target).
Local Abbreviation w0 := (mount (redirecting target nav) (boot t0 l)).
Local Abbreviation o := (requested env target nav t0 l).

Lemma redirect_dispatched :
  threw o = false -> setTimeout_throws env = false ->
  advance env 1500 w0 = dispatched env target nav t0 l.
Proof.
  intros Ho Hs. rewrite outer_timer_fires.
  unfold redirecting, dispatched. run_action. rewrite target_truthy. simpl.
  fold o. rewrite Hs.
  destruct o; [reflexivity | discriminate].
Qed.

Lemma redirect_aborted :
  threw o = true \/ setTimeout_throws env = true ->
  queue (advance env 1500 w0) = [] /\
  trace (advance env 1500 w0)
  = [(t0 + 1500, EvNavigate clean); (t0 + 1500, EvConsoleError);
     (t0 + 1500, EvSetHash "#/home")].
Proof.
  intros H. rewrite outer_timer_fires.
  unfold redirecting. run_action. rewrite target_truthy. simpl.
  fold o.
  destruct o eqn:Eo; simpl in *.
  - destruct H as [H|H]; [discriminate|]. rewrite H. simpl. now split.
  - now split.
Qed.

Lemma fallback_timer_fires :
  advance env 300 (dispatched env target nav t0 l)
  = fst (fallback_check clean
           (mkWorld (t0 + 1500 + 300) 3 [] (checked env target nav t0 l)
                    [(t0 + 1500, EvNavigate clean)]
                    (Some (mkInstance (redirecting target nav) 1)))).
Proof.
  change 300 with (S 299) at 1.
  rewrite (@advance_single env 299 (dispatched env target nav t0 l)
             (mkTimer 2 (t0 + 1500 + 300) (FallbackCheck clean)))
    by reflexivity.
  reflexivity.
Qed.

(** Everything an instance with a usable [redirectTo] ever does. *)
Lemma redirect_timeline (n : nat) :
  (trace (advance env (1500 + n) w0)
   = [(t0 + 1500, EvNavigate clean); (t0 + 1500, EvConsoleError);
      (t0 + 1500, EvSetHash "#/home")]
   /\ (threw o = true \/ setTimeout_throws env = true))
  \/ (trace (advance env (1500 + n) w0) = [(t0 + 1500, EvNavigate clean)]
      /\ (n < 300 \/
          indexOf (pathname (checked env target nav t0 l)) clean <> (-1)%Z))
  \/ (trace (advance env (1500 + n) w0)
      = [(t0 + 1500, EvNavigate clean);
         (t0 + 1500 + 300, EvSetHref ("#/" ++ clean)%string)]
      /\ 300 <= n
      /\ indexOf (pathname (checked env target nav t0 l)) clean = (-1)%Z).
Proof.
  rewrite advance_add.
  destruct (threw o) eqn:Ho; [|destruct (setTimeout_throws env) eqn:Hs].
  - left. destruct redirect_aborted as [Hq Ht]; [now left|].
    rewrite advance_quiet, trace_idle, Ht by exact Hq. auto.
  - left. destruct redirect_aborted as [Hq Ht]; [now right|].
    rewrite advance_quiet, trace_idle, Ht by exact Hq. auto.
  - right. rewrite redirect_dispatched by assumption.
    destruct (Nat.lt_ge_cases n 300) as [Hn|Hn].
    + left. rewrite advance_idle by (intros t [<-|[]]; simpl; lia).
      split; [reflexivity | now left].
    + assert (Hsplit : exists m, n = 300 + m) by (exists (n - 300); lia).
      destruct Hsplit as [m ->].
      rewrite advance_add, fallback_timer_fires.
      unfold fallback_check, set_location_href, ret. cbn [loc pathname].
      destruct (indexOf (pathname (checked env target nav t0 l)) clean
                =? -1)%Z eqn:Hi.
      * right. apply Z.eqb_eq in Hi.
        rewrite advance_quiet by reflexivity.
        split; [reflexivity | split; [lia | exact Hi]].
      * left. apply Z.eqb_neq in Hi.
        rewrite advance_quiet by reflexivity.
        split; [reflexivity | now right].
Qed.


End Redirect.

(** C9: with [redirectTo = "/"] the cleaned path is empty, and every
    pathname contains the empty string: the fallback check changes
    nothing, whatever the location is, and no direct [href] assignment
    ever appears in the instance's trace. *)
Theorem root_redirect_never_falls_back :
  forall (env : Env) (nav t0 : nat) (l : Location),
    let w0 := mount (redirecting "/" nav) (boot t0 l) in
    cleanPath "/" = ""
    /\ (forall w, fallback_check (cleanPath "/") w = (w, Ok tt))
    /\ (forall n, href_writes (trace (advance env n w0)) = []).
Proof.
  intros env nav t0 l w0. subst w0.
  split; [reflexivity|]. split.
  - intros w. unfold fallback_check. cbn [cleanPath].
    now rewrite indexOf_empty.
  - intros n. destruct (Nat.lt_ge_cases n 1500) as [Hn|Hn].
    + now rewrite before_expiry.
    + assert (Hsplit : exists m, n = 1500 + m) by (exists (n - 1500); lia).
      destruct Hsplit as [m ->].
      destruct (@redirect_timeline env "/" nav t0 l eq_refl m)
        as [[-> _]|[[-> _]|[_ [_ Habs]]]]; try reflexivity.
      cbn [cleanPath] in Habs. rewrite indexOf_empty in Habs. discriminate.
Qed.

(** C10: with [onComplete] absent and a usable [redirectTo], a fallback
    check that finds the cleaned path inside the current pathname leaves
    the world as it is; in the life of an instance, the location after the
    check is the one the check found and the trace has not grown. *)
Theorem fallback_check_frame :
  forall (env : Env) (target : string) (nav t0 : nat) (l : Location),
    let clean := cleanPath target in
    let w0 := mount (redirecting target nav) (boot t0 l) in
    let w1 := advance env 1500 w0 in
    let w2 := advance env 300 w1 in
    let at_check := drift_through env (t0 + 1500) 300 (loc w1) in
    (forall w, contains (pathname (loc w)) clean ->
               fst (run_task env (FallbackCheck clean) w) = w) /\
    (truthy target = true ->
     threw (call_navigate env nav clean (drift_through env t0 1500 l)) = false ->
     setTimeout_throws env = false ->
     contains (pathname at_check) clean ->
     loc w2 = at_check /\ trace w2 = trace w1 /\ queue w2 = []).
Proof.
  intros env target nav t0 l clean w0 w1 w2 at_check.
  subst clean w0 w1 w2 at_check. split.
  - intros w Hc. cbn [run_task]. unfold fallback_check.
    destruct (indexOf (pathname (loc w)) (cleanPath target) =? -1)%Z eqn:Hi;
      [|reflexivity].
    apply Z.eqb_eq, indexOf_absent in Hi. contradiction.
  - intros Ht Ho Hs.
    rewrite (@redirect_dispatched env target nav t0 l Ht Ho Hs).
    rewrite (@fallback_timer_fires env target).
    change (drift_through env (t0 + 1500) 300
              (loc (dispatched env target nav t0 l)))
      with (checked env target nav t0 l).
    intros Hc. unfold fallback_check. cbn [loc pathname].
    destruct (indexOf _ (cleanPath target) =? -1)%Z eqn:Hi.
    + apply Z.eqb_eq, indexOf_absent in Hi. contradiction.
    + repeat split.
Qed.

Lemma fallback_check_frame_witness :
  contains (pathname (mkLocation "/menu" "")) (cleanPath "/menu")
  /\ fst (run_task env_path_router (FallbackCheck (cleanPath "/menu"))
            (with_loc (mkLocation "/menu" "") (boot 0 root_location)))
     = with_loc (mkLocation "/menu" "") (boot 0 root_location)
  /\ trace (advance env_path_router 300
              (advance env_path_router 1500
                 (mount render_menu (boot 0 root_location))))
     = trace (advance env_path_router 1500
                (mount render_menu (boot 0 root_location))).
Proof.
  assert (Hc : contains "/menu" "menu") by (exists "/", ""; reflexivity).
  destruct (fallback_check_frame env_path_router "/menu" 0 0 root_location)
    as [H1 H2].
  split; [exact Hc|]. split.
  - apply H1. exact Hc.
  - apply H2; [reflexivity | reflexivity | reflexivity |].
    exists "/", "". vm_compute. reflexivity.
Defined.

(* ------------------------------------------------------------------ *)
(** ** The [try]/[catch] boundary *)

Lemma error_logs_app (a b : list (nat * Event)) :
  error_logs (a ++ b) = error_logs a ++ error_logs b.
Proof. apply flat_map_app. Qed.

(** The [try] block ends with an exception exactly when one of its
    three calls throws. *)
Lemma guarded_action_raises (env : Env) (r : Render) (w : World) :
  snd (guarded_action env r w) = Exn <-> failing_call env r (loc w) <> None.
Proof.
  unfold failing_call, guarded_action, invoke_onComplete, navigate_to,
    schedule_fallback, external, bind.
  destruct (onComplete (props r)) as [cb|].
  - destruct (call_onComplete env cb (loc w)); simpl;
      split; congruence.
  - destruct (redirectTo (props r)) as [target|];
      [destruct (truthy target)|];
      cbn [loc emit with_loc];
      destruct (call_navigate env (navigate r) _ (loc w)); simpl;
      try (split; congruence).
    destruct (setTimeout_throws env); simpl; split; congruence.
Qed.

(** C4: the deferred action never ends with an exception.  Whenever
    its [try] block throws - which happens exactly when [onComplete()],
    [navigate(...)] or the scheduling of the fallback check throws - the
    handler leaves the hash at ["#/home"] and adds exactly one
    [console.error] entry. *)
Theorem post_timer_exceptions_contained :
  forall (env : Env) (r : Render) (w : World),
    let w' := fst (post_timer_action env r w) in
    snd (post_timer_action env r w) = Ok tt /\
    (snd (guarded_action env r w) = Exn <->
     failing_call env r (loc w) <> None) /\
    (snd (guarded_action env r w) = Exn ->
     hash (loc w') = "#/home" /\
     error_logs (trace w') = error_logs (trace w) ++ [now w]).
Proof.
  intros env r w w'. subst w'. split; [|split].
  - run_action.
    destruct (onComplete (props r)) as [cb|].
    + destruct (call_onComplete env cb (loc w)); reflexivity.
    + destruct (redirectTo (props r)) as [target|];
        [destruct (truthy target)|];
        destruct (call_navigate env (navigate r) _ (loc w)); simpl;
        try reflexivity.
      destruct (setTimeout_throws env); reflexivity.
  - apply guarded_action_raises.
  - intros H.
    unfold post_timer_action, try_catch.
    destruct (guarded_action env r w) as [w1 res] eqn:E.
    simpl in H. subst res.
    assert (Hw1 : now w1 = now w /\
                  error_logs (trace w1) = error_logs (trace w)).
    { revert E.
      unfold guarded_action, invoke_onComplete, navigate_to,
        schedule_fallback, external, bind.
      destruct (onComplete (props r)) as [cb|].
      - destruct (call_onComplete env cb (loc w)); intros [= <-];
          simpl; now rewrite error_logs_app, app_nil_r.
      - destruct (redirectTo (props r)) as [target|];
          [destruct (truthy target)|];
          destruct (call_navigate env (navigate r) _ (loc w));
          try destruct (setTimeout_throws env);
          intros [= <-]; simpl; now rewrite error_logs_app, app_nil_r. }
    destruct Hw1 as [Hn Hl].
    unfold catch_block, console_error, set_location_hash, bind. simpl.
    split; [reflexivity|].
    rewrite !error_logs_app, Hl, Hn. simpl. now rewrite app_nil_r.
Qed.

Lemma post_timer_exceptions_contained_witness :
  snd (guarded_action env_throwing (mkRender (mkProps (Some 7) None) 0)
         (boot 1500 root_location)) = Exn
  /\ snd (post_timer_action env_throwing (mkRender (mkProps (Some 7) None) 0)
            (boot 1500 root_location)) = Ok tt
  /\ hash (loc (fst (post_timer_action env_throwing
                       (mkRender (mkProps (Some 7) None) 0)
                       (boot 1500 root_location)))) = "#/home".
Proof.
  assert (H : snd (guarded_action env_throwing
                     (mkRender (mkProps (Some 7) None) 0)
                     (boot 1500 root_location)) = Exn) by reflexivity.
  destruct (post_timer_exceptions_contained env_throwing
              (mkRender (mkProps (Some 7) None) 0) (boot 1500 root_location))
    as (H1 & _ & H2).
  split; [exact H|]. split; [exact H1|]. apply (H2 H).
Defined.

(** The three sources of an exception, each on a run. *)
Example callback_throws :
  trace (advance env_throwing 1500
           (mount (mkRender (mkProps (Some 7) (Some "/menu")) 0)
                  (boot 0 root_location)))
  = [(1500, EvOnComplete 7); (1500, EvConsoleError);
     (1500, EvSetHash "#/home")].
Proof. vm_compute. reflexivity. Qed.

Example navigate_throws :
  trace (advance env_throwing 1500 (mount render_menu (boot 0 root_location)))
  = [(1500, EvNavigate "menu"); (1500, EvConsoleError);
     (1500, EvSetHash "#/home")].
Proof. vm_compute. reflexivity. Qed.

Example scheduling_throws :
  let w := advance env_no_timers 1500
             (mount render_menu (boot 0 root_location)) in
  trace w = [(1500, EvNavigate "menu"); (1500, EvConsoleError);
             (1500, EvSetHash "#/home")]
  /\ queue w = [] /\ loc w = mkLocation "/" "#/home".
Proof. vm_compute. repeat split. Qed.

(* ------------------------------------------------------------------ *)
(** ** The dark-mode flag *)

Lemma truthy_item_iff (a : Appearance) :
  truthy_item (stored_theme a) = true <-> has_stored_theme a.
Proof.
  unfold has_stored_theme. destruct (stored_theme a) as [[|c s]|]; simpl.
  - split; [discriminate|]. intros (s & [= <-] & Hs). congruence.
  - split; [|reflexivity]. intros _. exists (String c s). now split.
  - split; [discriminate|]. intros (s & H & _). discriminate.
Qed.

(** C7: where [window] exists, the flag is true exactly when the root
    element carries the dark marker, or no theme preference is stored and
    the system prefers a dark appearance; it is false otherwise. *)
Theorem isDarkMode_exactly :
  forall a : Appearance,
    (isDarkMode (Some a) = true <->
     root_has_dark a = true \/
     (~ has_stored_theme a /\ prefers_dark a = true)) /\
    (isDarkMode (Some a) = false <->
     ~ (root_has_dark a = true \/
        (~ has_stored_theme a /\ prefers_dark a = true))).
Proof.
  intros a.
  assert (H : isDarkMode (Some a) = true <->
              root_has_dark a = true \/
              (~ has_stored_theme a /\ prefers_dark a = true)).
  { unfold isDarkMode. rewrite <- truthy_item_iff.
    destruct (root_has_dark a), (truthy_item (stored_theme a)),
      (prefers_dark a); simpl; intuition congruence. }
  split; [exact H|].
  rewrite <- H. destruct (isDarkMode (Some a)); split; congruence.
Qed.

(* ------------------------------------------------------------------ *)
(** ** Unmounting before the delay has elapsed *)

Lemma filter_all_out {A} (f : A -> bool) (l : list A) :
  filter f l = [] -> forall x, In x l -> f x = false.
Proof.
  induction l as [|a l IH]; intros H x Hx; [contradiction|].
  simpl in H. destruct (f a) eqn:Ha; [discriminate|].
  destruct Hx as [<-|Hx]; auto.
Qed.

Lemma clear_own_handle (id : nat) (q : list Timer) :
  (forall t, In t q -> tid t = id) ->
  filter (fun t => negb (tid t =? id)) q = [].
Proof.
  intros H. apply filter_none. intros t Ht.
  rewrite (H t Ht), Nat.eqb_refl. reflexivity.
Qed.

Section Waiting.

Variable env : Env.
Variable bound : nat.

Lemma waiting_tick (w : World) :
  waiting bound w -> S (now w) < bound ->
  waiting bound (tick env w) /\ now (tick env w) = S (now w).
Proof.
  intros (Ht & Hd & Hi) Hlt.
  rewrite tick_idle by (intros t Hin; specialize (Hd t Hin); lia).
  split; [repeat split; assumption | simpl; lia].
Qed.

Lemma waiting_rerender (r' : Render) (w : World) :
  waiting bound w -> bound <= now w + 1500 ->
  waiting bound (rerender r' w) /\ now (rerender r' w) = now w.
Proof.
  intros (Ht & Hd & Hi) Hb. unfold rerender.
  destruct (instance w) as [i|] eqn:Ei.
  - destruct (same_deps (rendered i) r').
    + unfold waiting. rewrite Ei. auto.
    + unfold run_effect, clearTimeout, waiting. simpl.
      rewrite clear_own_handle by assumption. simpl.
      repeat split; try assumption; intros t [<-|[]]; simpl;
        [lia|reflexivity].
  - unfold waiting. rewrite Ei. auto.
Qed.

Lemma waiting_unmount (w : World) :
  waiting bound w ->
  waiting bound (unmount w) /\ now (unmount w) = now w
  /\ queue (unmount w) = [].
Proof.
  intros (Ht & Hd & Hi). unfold unmount.
  destruct (instance w) as [i|] eqn:Ei.
  - unfold clearTimeout, waiting. simpl.
    rewrite clear_own_handle by assumption.
    repeat split; try assumption. intros t [].
  - unfold waiting. rewrite Ei. auto.
Qed.

(** As long as fewer time units pass than the delay, whatever renders
    and unmounts happen, the component stays silent. *)
Lemma waiting_run (s : list Action) :
  forall w, waiting bound w -> now w + ticks s < bound ->
            bound <= now w + 1500 ->
            waiting bound (run env s w).
Proof.
  induction s as [|a s IH]; intros w Hw Hlt Hb; [exact Hw|].
  change (run env (a :: s) w) with (run env s (step env w a)).
  destruct a as [|r'|]; simpl step.
  - change (ticks (Tick :: s)) with (S (ticks s)) in Hlt.
    destruct (waiting_tick Hw) as [Hw' Hn]; [lia|].
    apply IH; [assumption | lia | lia].
  - change (ticks (Rerender r' :: s)) with (ticks s) in Hlt.
    destruct (waiting_rerender r' Hw Hb) as [Hw' Hn].
    apply IH; [assumption | lia | lia].
  - change (ticks (Unmount :: s)) with (ticks s) in Hlt.
    destruct (waiting_unmount Hw) as (Hw' & Hn & _).
    apply IH; [assumption | lia | lia].
Qed.

End Waiting.

Lemma waiting_mount (r : Render) (t0 : nat) (l : Location) :
  waiting (t0 + 1500) (mount r (boot t0 l)).
Proof.
  rewrite mount_boot. unfold waiting. simpl.
  repeat split; intros t [<-|[]]; simpl; [lia|reflexivity].
Qed.

(** C6: an instance that is unmounted after fewer than 1500 units of
    time - whatever renders happened in between - never invokes
    [onComplete], never asks the router anything and never touches the
    location: its trace stays empty for ever. *)
Theorem unmount_before_expiry_is_silent :
  forall (env : Env) (r : Render) (t0 : nat) (l : Location)
         (s : list Action) (n : nat),
    ticks s < 1500 ->
    let w := advance env n (unmount (run env s (mount r (boot t0 l)))) in
    trace w = [] /\ completions (trace w) = [] /\ navigations (trace w) = []
    /\ href_writes (trace w) = [] /\ queue w = [].
Proof.
  intros env r t0 l s n Hs w. subst w.
  assert (Hw : waiting (t0 + 1500) (run env s (mount r (boot t0 l)))).
  { apply waiting_run; [apply waiting_mount | simpl; lia | simpl; lia]. }
  destruct (waiting_unmount Hw) as ((Ht & _) & _ & Hq).
  rewrite advance_quiet, trace_idle, queue_idle, Ht, Hq by exact Hq.
  repeat split.
Qed.

Lemma unmount_before_expiry_is_silent_witness :
  ticks [Tick; Rerender render_menu; Tick; Tick] < 1500
  /\ trace (advance env_hash_router 5000
              (unmount (run env_hash_router
                          [Tick; Rerender render_menu; Tick; Tick]
                          (mount (mkRender (mkProps (Some 7) None) 0)
                                 (boot 0 root_location))))) = [].
Proof.
  assert (H : ticks [Tick; Rerender render_menu; Tick; Tick] < 1500)
    by (unfold ticks; simpl; lia).
  split; [exact H|].
  apply (unmount_before_expiry_is_silent env_hash_router
           (mkRender (mkProps (Some 7) None) 0) 0 root_location
           [Tick; Rerender render_menu; Tick; Tick] 5000 H).
Defined.

(* ------------------------------------------------------------------ *)
(** ** Who owns which timer *)

Lemma filter_swap {A} (f g : A -> bool) (l : list A) :
  filter f (filter g l) = filter g (filter f l).
Proof.
  induction l as [|a l IH]; simpl; [reflexivity|].
  destruct (g a) eqn:Hg, (f a) eqn:Hf; simpl;
    rewrite ?Hg, ?Hf, IH; reflexivity.
Qed.

Lemma filter_shorter {A} (f : A -> bool) (l : list A) :
  length (filter f l) <= length l.
Proof.
  induction l as [|a l IH]; simpl; [lia|].
  destruct (f a); simpl; lia.
Qed.

Lemma outer_pending_clear (id : nat) (w : World) :
  outer_pending (clearTimeout id w)
  = filter (fun t => negb (tid t =? id)) (outer_pending w).
Proof. unfold outer_pending, clearTimeout. simpl. apply filter_swap. Qed.

Section Ownership.

Variable env : Env.

(** Neither timer callback cancels or adds an outer timer, and neither
    touches the instance. *)
Lemma run_task_keeps_outer (k : Task) (w : World) :
  outer_pending (fst (run_task env k w)) = outer_pending w /\
  instance (fst (run_task env k w)) = instance w.
Proof.
  destruct k as [r|clean]; simpl.
  - run_action.
    destruct (onComplete (props r)) as [cb|].
    + destruct (call_onComplete env cb (loc w)); now split.
    + destruct (redirectTo (props r)) as [target|];
        [destruct (truthy target)|];
        destruct (call_navigate env (navigate r) _ (loc w)); simpl;
        try (now split).
      destruct (setTimeout_throws env); simpl; [now split|].
      unfold outer_pending. simpl. rewrite filter_app. simpl.
      now rewrite app_nil_r.
  - unfold fallback_check, set_location_href, ret.
    destruct (_ =? _)%Z; now split.
Qed.

Lemma owned_clear (id : nat) (w : World) :
  owned w -> owned (clearTimeout id w).
Proof.
  unfold owned. rewrite outer_pending_clear.
  change (instance (clearTimeout id w)) with (instance w).
  destruct (instance w) as [i|].
  - intros [Hid Hlen]. split.
    + intros t Ht. apply filter_In in Ht. now apply Hid.
    + pose proof (filter_shorter (fun t => negb (tid t =? id))
                    (outer_pending w)). lia.
  - intros ->. reflexivity.
Qed.

Lemma owned_fire (t : Timer) (w : World) : owned w -> owned (fire env w t).
Proof.
  intros Hw. unfold fire. destruct (is_pending (tid t) w); [|exact Hw].
  apply (owned_clear (tid t)) in Hw. revert Hw. unfold owned.
  destruct (run_task_keeps_outer (task t) (clearTimeout (tid t) w))
    as [-> ->]. auto.
Qed.

Lemma owned_fold (ts : list Timer) :
  forall w, owned w -> owned (fold_left (fire env) ts w).
Proof.
  induction ts as [|t ts IH]; intros w Hw; simpl; [exact Hw|].
  apply IH, owned_fire, Hw.
Qed.

Lemma owned_effect (r : Render) (w : World) :
  outer_pending w = [] -> owned (run_effect r w).
Proof.
  intros H. unfold owned, run_effect, outer_pending. simpl.
  unfold outer_pending in H. rewrite filter_app, H. simpl.
  split; [intros t [<-|[]]; reflexivity | lia].
Qed.

Lemma outer_pending_own_cleared (i : Instance) (w : World) :
  instance w = Some i -> owned w ->
  outer_pending (clearTimeout (timer i) w) = [].
Proof.
  unfold owned. intros -> [Hid _]. rewrite outer_pending_clear.
  apply filter_none. intros t Ht.
  rewrite (Hid t Ht), Nat.eqb_refl. reflexivity.
Qed.

Lemma owned_step (a : Action) (w : World) : owned w -> owned (step env w a).
Proof.
  intros Hw. destruct a as [|r'|]; simpl.
  - unfold tick. apply owned_fold. exact Hw.
  - unfold rerender. destruct (instance w) as [i|] eqn:Ei; [|exact Hw].
    destruct (same_deps (rendered i) r'); [exact Hw|].
    apply owned_effect. now apply outer_pending_own_cleared.
  - unfold unmount. destruct (instance w) as [i|] eqn:Ei; [|exact Hw].
    unfold owned. simpl.
    apply (@outer_pending_own_cleared i w Ei Hw).
Qed.

Lemma owned_run (s : list Action) :
  forall w, owned w -> owned (run env s w).
Proof.
  induction s as [|a s IH]; intros w Hw; [exact Hw|].
  apply IH, owned_step, Hw.
Qed.

(** *** After the instance is gone *)

Lemma disposed_fire (t : Timer) (w : World) :
  is_post_timer t = false -> disposed w ->
  disposed (fire env w t) /\
  exists extra, trace (fire env w t) = trace w ++ extra
                /\ Forall is_href_write extra.
Proof.
  intros Ht [Hi Ho]. unfold fire.
  destruct (is_pending (tid t) w).
  - unfold is_post_timer in Ht. destruct (task t) as [r|clean];
      [discriminate|]. simpl.
    unfold fallback_check, set_location_href, ret. cbn [loc pathname].
    assert (Hc : disposed (clearTimeout (tid t) w)).
    { split; [exact Hi|]. rewrite outer_pending_clear, Ho. reflexivity. }
    destruct (_ =? _)%Z; simpl.
    + split; [exact Hc|]. eexists. split; [reflexivity|].
      constructor; [|constructor]. now eexists.
    + split; [exact Hc|]. exists []. now rewrite app_nil_r.
  - split; [now split|]. exists []. now rewrite app_nil_r.
Qed.

Lemma disposed_fold (ts : list Timer) :
  forall w,
    (forall t, In t ts -> is_post_timer t = false) -> disposed w ->
    disposed (fold_left (fire env) ts w) /\
    exists extra, trace (fold_left (fire env) ts w) = trace w ++ extra
                  /\ Forall is_href_write extra.
Proof.
  induction ts as [|t ts IH]; intros w Hts Hw; simpl.
  - split; [exact Hw|]. exists []. now rewrite app_nil_r.
  - destruct (@disposed_fire t w) as (Hw1 & e1 & He1 & Hf1);
      [apply Hts; now left | exact Hw |].
    destruct (IH (fire env w t)) as (Hw2 & e2 & He2 & Hf2);
      [intros t' Ht'; apply Hts; now right | exact Hw1 |].
    split; [exact Hw2|]. exists (e1 ++ e2).
    rewrite He2, He1, app_assoc. split; [reflexivity|].
    apply Forall_app. now split.
Qed.

Lemma disposed_step (a : Action) (w : World) :
  disposed w ->
  disposed (step env w a) /\
  exists extra, trace (step env w a) = trace w ++ extra
                /\ Forall is_href_write extra.
Proof.
  intros Hw. destruct a as [|r'|]; simpl.
  - unfold tick. set (w1 := mkWorld _ _ _ _ _ _).
    assert (Hw1 : disposed w1) by exact Hw.
    destruct (@disposed_fold (filter (fun t => due t <=? now w1) (queue w1)) w1)
      as (H1 & H2); [|exact Hw1|now split].
    intros t Ht. apply filter_In in Ht as [Ht _].
    destruct Hw as [_ Ho]. apply (filter_all_out _ _ Ho t Ht).
  - unfold rerender. destruct Hw as [Hi Ho]. rewrite Hi.
    split; [now split|]. exists []. now rewrite app_nil_r.
  - unfold unmount. destruct Hw as [Hi Ho]. rewrite Hi.
    split; [now split|]. exists []. now rewrite app_nil_r.
Qed.

Lemma disposed_run (s : list Action) :
  forall w, disposed w ->
    exists extra, trace (run env s w) = trace w ++ extra
                  /\ Forall is_href_write extra.
Proof.
  induction s as [|a s IH]; intros w Hw.
  - exists []. simpl. now rewrite app_nil_r.
  - change (run env (a :: s) w) with (run env s (step env w a)).
    destruct (disposed_step a Hw) as (Hw1 & e1 & He1 & Hf1).
    destruct (IH _ Hw1) as (e2 & He2 & Hf2).
    exists (e1 ++ e2). rewrite He2, He1, app_assoc.
    split; [reflexivity|]. apply Forall_app. now split.
Qed.

End Ownership.

Lemma owned_mount (r : Render) (t0 : nat) (l : Location) :
  owned (mount r (boot t0 l)).
Proof. apply owned_effect. reflexivity. Qed.

Lemma instance_unmount (w : World) : instance (unmount w) = None.
Proof. unfold unmount. destruct (instance w) eqn:E; [reflexivity|exact E]. Qed.

Lemma trace_unmount (w : World) : trace (unmount w) = trace w.
Proof. unfold unmount. destruct (instance w); reflexivity. Qed.

(** C5, as the claim states it, fails: with a router that leaves the
    pathname alone, an instance with [redirectTo = "/menu"] that is
    unmounted right after its deferred action ran leaves the fallback
    check pending, and 300 units later - the instance gone - the check
    assigns [location.href]. *)
Lemma fallback_timer_survives_unmount :
  let w := unmount (advance env_hash_router 1500
                      (mount render_menu (boot 0 root_location))) in
  instance w = None
  /\ queue w = [mkTimer 2 1800 (FallbackCheck "menu")]
  /\ trace w = [(1500, EvNavigate "menu")]
  /\ trace (advance env_hash_router 300 w)
     = [(1500, EvNavigate "menu"); (1800, EvSetHref "#/menu")].
Proof. vm_compute. repeat split. Qed.

(** A render with a new [navigate] identity while the fallback check is
    pending schedules a second timer next to it. *)
Lemma rerender_leaves_two_timers :
  queue (rerender (mkRender (mkProps None (Some "/menu")) 1)
           (advance env_hash_router 1500
              (mount render_menu (boot 0 root_location))))
  = [mkTimer 2 1800 (FallbackCheck "menu");
     mkTimer 3 3000 (PostTimer (mkRender (mkProps None (Some "/menu")) 1))].
Proof. vm_compute. reflexivity. Qed.

(** C5, as the code has it: in every execution of an instance at most
    one outer (1500-unit) timer is pending; unmounting cancels it, and
    from then on nothing of the deferred action ever runs - the only
    thing that can still be recorded is the direct [href] assignment of
    a fallback check that was already scheduled, which the clean-up does
    not cancel. *)
Theorem outer_timer_owned_and_cancelled :
  forall (env : Env) (r : Render) (t0 : nat) (l : Location)
         (s : list Action),
    let w := run env s (mount r (boot t0 l)) in
    length (outer_pending w) <= 1
    /\ outer_pending (unmount w) = []
    /\ forall s', exists extra,
         trace (run env s' (unmount w)) = trace w ++ extra
         /\ Forall is_href_write extra.
Proof.
  intros env r t0 l s w.
  assert (Hw : owned w) by (apply owned_run, owned_mount).
  assert (Hu : disposed (unmount w)).
  { split; [apply instance_unmount|].
    pose proof (@owned_step env Unmount w Hw) as H.
    unfold owned in H. simpl step in H.
    now rewrite instance_unmount in H. }
  split; [|split].
  - unfold owned in Hw. destruct (instance w).
    + apply Hw.
    + rewrite Hw. simpl. lia.
  - apply Hu.
  - intros s'. rewrite <- (trace_unmount w). now apply disposed_run.
Qed.

Lemma isDarkMode_no_window : isDarkMode None = false.
Proof. reflexivity. Qed.

(** An empty string stored under the key is falsy: the flag follows the
    system preference as if nothing were stored. *)
Lemma isDarkMode_empty_item (d p : bool) :
  isDarkMode (Some (mkAppearance d (Some "") p))
  = isDarkMode (Some (mkAppearance d None p)).
Proof. reflexivity. Qed.

Lemma isDarkMode_exactly_witness :
  (~ has_stored_theme (mkAppearance false None true)
   /\ prefers_dark (mkAppearance false None true) = true)
  /\ isDarkMode (Some (mkAppearance false None true)) = true
  /\ isDarkMode (Some (mkAppearance false (Some "light") true)) = false.
Proof.
  assert (H : ~ has_stored_theme (mkAppearance false None true)
              /\ prefers_dark (mkAppearance false None true) = true).
  { split; [|reflexivity]. intros (s & Hs & _). discriminate. }
  split; [exact H|]. split.
  - apply (proj1 (isDarkMode_exactly (mkAppearance false None true))).
    right. exact H.
  - apply (proj2 (isDarkMode_exactly
                    (mkAppearance false (Some "light") true))).
    intros [Hd|[Hn _]]; [discriminate|].
    apply Hn. exists "light". split; [reflexivity|discriminate].
Defined.

(* ------------------------------------------------------------------ *)
(** ** Beyond the claims: strings *)

(** [cleanPath] removes one leading slash and nothing else: a target
    that starts with a slash is the slash followed by the result, any
    other target comes back as it is. *)
Theorem cleanPath_exactly_one_slash :
  forall s : string,
    (prefix "/" s = true -> s = String "/"%char (cleanPath s)) /\
    (prefix "/" s = false -> cleanPath s = s) /\
    String.length s <= S (String.length (cleanPath s)).
Proof.
  intros s. split; [|split].
  - destruct s as [|c s]; [intros H; cbv in H; discriminate|].
    change (prefix "/" (String c s))
      with (if ascii_dec "/"%char c then prefix "" s else false).
    destruct (ascii_dec "/"%char c) as [<-|]; [|discriminate].
    intros _. reflexivity.
  - apply cleanPath_no_slash.
  - destruct s as [|c s]; [simpl; lia|].
    destruct (ascii_dec "/"%char c) as [<-|Hc].
    + simpl. lia.
    + rewrite cleanPath_no_slash; [lia|].
      change (prefix "/" (String c s))
        with (if ascii_dec "/"%char c then prefix "" s else false).
      destruct (ascii_dec "/"%char c); [contradiction|reflexivity].
Qed.

Lemma cleanPath_exactly_one_slash_witness :
  prefix "/" "//menu" = true
  /\ "//menu" = String "/"%char (cleanPath "//menu")
  /\ prefix "/" "menu" = false
  /\ cleanPath "menu" = "menu".
Proof.
  destruct (cleanPath_exactly_one_slash "//menu") as (H1 & _ & _).
  destruct (cleanPath_exactly_one_slash "menu") as (_ & H2 & _).
  split; [reflexivity|]. split; [apply H1; reflexivity|].
  split; [reflexivity|]. apply H2. reflexivity.
Defined.

Lemma indexOf_from_first (hay needle : string) :
  forall i r, (0 <= i)%Z -> indexOf_from i hay needle = r -> r <> (-1)%Z ->
    exists pre post,
      hay = (pre ++ needle ++ post)%string
      /\ r = (i + Z.of_nat (String.length pre))%Z
      /\ forall pre' post', hay = (pre' ++ needle ++ post')%string ->
                            String.length pre <= String.length pre'.
Proof.
  induction hay as [|c hay IH]; intros i r Hi Hr Hne;
    rewrite indexOf_from_unfold in Hr.
  - destruct (prefix needle "") eqn:Hp; [|congruence].
    apply prefix_iff_append in Hp as [post Hp].
    exists "", post. repeat split; [exact Hp | simpl; lia | simpl; lia].
  - destruct (prefix needle (String c hay)) eqn:Hp.
    + apply prefix_iff_append in Hp as [post Hp].
      exists "", post. repeat split; [exact Hp | simpl; lia | simpl; lia].
    + destruct (IH (i + 1)%Z r) as (pre & post & Hh & Hr' & Hmin);
        [lia | exact Hr | exact Hne |].
      exists (String c pre), post. repeat split.
      * simpl. now rewrite Hh.
      * simpl String.length. lia.
      * intros pre' post' H'. destruct pre' as [|c' pre'].
        -- assert (prefix needle (String c hay) = true)
             by (apply prefix_iff_append; eauto).
           congruence.
        -- injection H' as _ H'. specialize (Hmin pre' post' H').
           simpl. lia.
Qed.

(** [indexOf] answers with the position of the first occurrence: when
    the result is not [-1], the needle sits at that offset and at no
    smaller one. *)
Theorem indexOf_first_occurrence :
  forall (hay needle : string),
    indexOf hay needle <> (-1)%Z ->
    exists pre post,
      hay = (pre ++ needle ++ post)%string
      /\ indexOf hay needle = Z.of_nat (String.length pre)
      /\ forall pre' post', hay = (pre' ++ needle ++ post')%string ->
                            String.length pre <= String.length pre'.
Proof.
  intros hay needle H.
  destruct (@indexOf_from_first hay needle 0%Z (indexOf hay needle))
    as (pre & post & H1 & H2 & H3); [lia | reflexivity | exact H |].
  exists pre, post. repeat split; [exact H1 | lia | exact H3].
Qed.

Lemma indexOf_first_occurrence_witness :
  indexOf "/menu/menu" "menu" <> (-1)%Z
  /\ exists pre post,
       "/menu/menu" = (pre ++ "menu" ++ post)%string
       /\ indexOf "/menu/menu" "menu" = Z.of_nat (String.length pre)
       /\ forall pre' post', "/menu/menu" = (pre' ++ "menu" ++ post')%string ->
                             String.length pre <= String.length pre'.
Proof.
  assert (H : indexOf "/menu/menu" "menu" <> (-1)%Z) by discriminate.
  split; [exact H|].
  apply (indexOf_first_occurrence "/menu/menu" "menu" H).
Defined.

(* ------------------------------------------------------------------ *)
(** ** Beyond the claims: rendering *)

(** Once a theme is stored, the flag is the root marker and nothing
    else: neither the system preference nor the stored value itself is
    looked at (a stored ["dark"] without the marker gives [false]).  The
    marker alone always switches the flag on. *)
Theorem stored_theme_defers_to_marker :
  forall a : Appearance,
    (has_stored_theme a -> isDarkMode (Some a) = root_has_dark a) /\
    (root_has_dark a = true -> isDarkMode (Some a) = true).
Proof.
  intros a. split.
  - intros H. apply truthy_item_iff in H. unfold isDarkMode.
    rewrite H. simpl. apply orb_false_r.
  - intros H. unfold isDarkMode. now rewrite H.
Qed.

Lemma stored_theme_defers_to_marker_witness :
  has_stored_theme (mkAppearance false (Some "dark") true)
  /\ isDarkMode (Some (mkAppearance false (Some "dark") true)) = false
  /\ root_has_dark (mkAppearance true (Some "light") false) = true
  /\ isDarkMode (Some (mkAppearance true (Some "light") false)) = true.
Proof.
  assert (H : has_stored_theme (mkAppearance false (Some "dark") true)).
  { exists "dark". split; [reflexivity|discriminate]. }
  split; [exact H|]. split.
  - apply (proj1 (stored_theme_defers_to_marker
                    (mkAppearance false (Some "dark") true)) H).
  - split; [reflexivity|].
    apply (proj2 (stored_theme_defers_to_marker
                    (mkAppearance true (Some "light") false))).
    reflexivity.
Defined.

(** The root element always has the class [splash-screen], and its
    class string mentions [dark-mode] exactly when the flag is set -
    also where there is no [window], in which case it never does. *)
Theorem className_dark_mode_iff_flag :
  forall win : option Appearance,
    prefix "splash-screen " (className win) = true /\
    (contains (className win) "dark-mode" <-> isDarkMode win = true) /\
    ~ contains (className None) "dark-mode".
Proof.
  intros win. unfold className. split; [|split].
  - destruct (isDarkMode win); reflexivity.
  - destruct (isDarkMode win).
    + split; [reflexivity|]. intros _. exists "splash-screen ", "".
      reflexivity.
    + split; [|discriminate]. intros H. exfalso. revert H.
      apply indexOf_absent. reflexivity.
  - apply indexOf_absent. reflexivity.
Qed.

Lemma className_dark_mode_iff_flag_witness :
  isDarkMode (Some (mkAppearance false None true)) = true
  /\ contains (className (Some (mkAppearance false None true))) "dark-mode"
  /\ className (Some (mkAppearance false (Some "light") true))
     = "splash-screen ".
Proof.
  destruct (className_dark_mode_iff_flag
              (Some (mkAppearance false None true))) as (_ & H & _).
  split; [reflexivity|]. split; [apply H; reflexivity | reflexivity].
Defined.

(* ------------------------------------------------------------------ *)
(** ** Beyond the claims: the deferred action and its fallback *)

(** What the deferred action leaves alone: the clock, the instance and
    every pending timer.  It schedules at most one timer - a fallback
    check 300 units ahead - and records between one and three calls. *)
Theorem post_timer_action_footprint :
  forall (env : Env) (r : Render) (w : World),
    let w' := fst (post_timer_action env r w) in
    now w' = now w
    /\ instance w' = instance w
    /\ (exists extra,
           queue w' = queue w ++ extra
           /\ length extra <= 1
           /\ Forall (fun t => exists clean,
                          task t = FallbackCheck clean
                          /\ due t = now w + 300) extra)
    /\ (exists calls,
           trace w' = trace w ++ calls
           /\ 1 <= length calls <= 3).
Proof.
  intros env r w w'. subst w'. run_action.
  assert (Hq0 : exists extra : list Timer,
             queue w = queue w ++ extra /\ length extra <= 1
             /\ Forall (fun t => exists clean,
                            task t = FallbackCheck clean
                            /\ due t = now w + 300) extra).
  { exists []. rewrite app_nil_r. repeat split; [simpl; lia|constructor]. }
  destruct (onComplete (props r)) as [cb|].
  - destruct (call_onComplete env cb (loc w)); simpl;
      repeat split; try exact Hq0;
      eexists; (split; [rewrite <- ?app_assoc; reflexivity | simpl; lia]).
  - destruct (redirectTo (props r)) as [target|];
      [destruct (truthy target)|];
      destruct (call_navigate env (navigate r) _ (loc w)); simpl;
      try (repeat split; try exact Hq0;
           eexists; (split; [rewrite <- ?app_assoc; reflexivity
                            | simpl; lia])).
    destruct (setTimeout_throws env); simpl.
    + repeat split; try exact Hq0.
      eexists; (split; [rewrite <- ?app_assoc; reflexivity | simpl; lia]).
    + repeat split.
      * eexists. split; [reflexivity|]. split; [simpl; lia|].
        constructor; [|constructor]. now eexists.
      * eexists; (split; [reflexivity | simpl; lia]).
Qed.

(** The fallback check when nothing but time passes after mounting. *)
Lemma fallback_decision_time_only :
  forall (env : Env) (target : string) (nav t0 : nat) (l : Location),
    truthy target = true ->
    threw (requested env target nav t0 l) = false ->
    setTimeout_throws env = false ->
    let clean := cleanPath target in
    let w2 := advance env 300
                (advance env 1500 (mount (redirecting target nav) (boot t0 l))) in
    let at_check := checked env target nav t0 l in
    (~ contains (pathname at_check) clean ->
     trace w2 = [(t0 + 1500, EvNavigate clean);
                 (t0 + 1800, EvSetHref ("#/" ++ clean)%string)]
     /\ loc w2 = mkLocation (pathname at_check) ("#/" ++ clean)%string)
    /\ (href_writes (trace w2) = [] <-> contains (pathname at_check) clean)
    /\ queue w2 = [].
Proof.
  intros env target nav t0 l Ht Ho Hs clean w2 at_check.
  subst clean w2 at_check.
  rewrite (@redirect_dispatched env target nav t0 l Ht Ho Hs).
  rewrite (@fallback_timer_fires env target).
  unfold fallback_check, set_location_href, ret. cbn [loc pathname].
  replace (t0 + 1800) with (t0 + 1500 + 300) by lia.
  destruct (indexOf (pathname (checked env target nav t0 l))
                    (cleanPath target) =? -1)%Z eqn:Hi.
  - apply Z.eqb_eq in Hi. pose proof (proj1 (indexOf_absent _ _) Hi) as Hn.
    split; [intros _; split; reflexivity|].
    split; [|reflexivity].
    split; [discriminate | contradiction].
  - apply Z.eqb_neq in Hi.
    destruct (@indexOf_from_first _ _ 0%Z _ (Z.le_refl 0) eq_refl Hi)
      as (pre & post & Hc & _).
    assert (Hyes : contains (pathname (checked env target nav t0 l))
                     (cleanPath target)) by (exists pre, post; exact Hc).
    split; [intros Hn; contradiction|].
    split; [|reflexivity].
    split; [intros _; exact Hyes | reflexivity].
Qed.

(* ------------------------------------------------------------------ *)
(** ** Coming to rest *)

Section Rest.

Variable env : Env.
Variables (t0 : nat) (l : Location).

Lemma rest_after_redirect (target : string) (nav : nat) :
  truthy target = true ->
  let w := advance env (1500 + 300) (mount (redirecting target nav) (boot t0 l)) in
  queue w = [] /\ 1 <= length (trace w) <= 3.
Proof.
  intros Ht. cbv zeta. rewrite advance_add.
  destruct (threw (requested env target nav t0 l)) eqn:Ho;
    [|destruct (setTimeout_throws env) eqn:Hs].
  - destruct (@redirect_aborted env target nav t0 l Ht) as [Hq Htr];
      [now left|].
    rewrite advance_quiet, queue_idle, trace_idle, Hq, Htr by exact Hq.
    simpl. split; [reflexivity|lia].
  - destruct (@redirect_aborted env target nav t0 l Ht) as [Hq Htr];
      [now right|].
    rewrite advance_quiet, queue_idle, trace_idle, Hq, Htr by exact Hq.
    simpl. split; [reflexivity|lia].
  - rewrite (@redirect_dispatched env target nav t0 l Ht Ho Hs).
    rewrite (@fallback_timer_fires env target).
    unfold fallback_check, set_location_href, ret. cbn [loc pathname].
    destruct (_ =? _)%Z; simpl; (split; [reflexivity|lia]).
Qed.

Lemma rest_after_other (r : Render) :
  (forall target, onComplete (props r) = None ->
                  redirectTo (props r) = Some target ->
                  truthy target = false) ->
  let w := advance env 1500 (mount r (boot t0 l)) in
  queue w = [] /\ 1 <= length (trace w) <= 3.
Proof.
  intros H. cbv zeta. rewrite outer_timer_fires. run_action.
  destruct (onComplete (props r)) as [cb|].
  - destruct (call_onComplete env cb _); simpl; (split; [reflexivity|lia]).
  - destruct (redirectTo (props r)) as [target|].
    + rewrite (H target eq_refl eq_refl).
      destruct (call_navigate env (navigate r) _ _); simpl;
        (split; [reflexivity|lia]).
    + destruct (call_navigate env (navigate r) _ _); simpl;
        (split; [reflexivity|lia]).
Qed.

End Rest.

(** Rest when nothing but time passes after mounting. *)
Lemma rest_by_1800_time_only :
  forall (env : Env) (r : Render) (t0 : nat) (l : Location) (n : nat),
    let w0 := mount r (boot t0 l) in
    queue (advance env (1800 + n) w0) = []
    /\ trace (advance env (1800 + n) w0) = trace (advance env 1800 w0)
    /\ 1 <= length (trace (advance env 1800 w0)) <= 3.
Proof.
  intros env r t0 l n w0. subst w0.
  assert (H : queue (advance env 1800 (mount r (boot t0 l))) = []
              /\ 1 <= length (trace (advance env 1800 (mount r (boot t0 l)))) <= 3).
  { change 1800 with (1500 + 300).
    destruct r as [[oc rt] nav].
    destruct oc as [cb|]; [|destruct rt as [target|];
                             [destruct (truthy target) eqn:Ht|]].
    2: { apply (@rest_after_redirect env t0 l target nav Ht). }
    all: rewrite advance_add;
      match goal with
      | |- context [advance _ 1500 (mount ?r0 _)] =>
          destruct (@rest_after_other env t0 l r0) as [Hq Hl];
          [simpl; intros; congruence|]
      end;
      rewrite advance_quiet, queue_idle, trace_idle by exact Hq;
      split; assumption. }
  destruct H as [Hq Hl].
  rewrite advance_add, advance_quiet, queue_idle, trace_idle by exact Hq.
  repeat split; solve [assumption | apply Hl].
Qed.

(* ------------------------------------------------------------------ *)
(** ** Beyond the claims: renders and the dependency array *)

Lemma same_deps_iff (r r' : Render) : same_deps r r' = true <-> r = r'.
Proof.
  destruct r as [[oc rt] nav], r' as [[oc' rt'] nav'].
  unfold same_deps. simpl. rewrite !andb_true_iff, Nat.eqb_eq.
  split.
  - intros [[Ho Hr] ->].
    assert (oc = oc') as ->.
    { destruct oc, oc'; simpl in Ho; try discriminate; [|reflexivity].
      apply Nat.eqb_eq in Ho. now subst. }
    assert (rt = rt') as ->.
    { destruct rt, rt'; simpl in Hr; try discriminate; [|reflexivity].
      apply String.eqb_eq in Hr. now subst. }
    reflexivity.
  - intros [= -> -> ->]. repeat split.
    + destruct oc'; simpl; [apply Nat.eqb_refl|reflexivity].
    + destruct rt'; simpl; [apply String.eqb_refl|reflexivity].
Qed.

Section Renders.

Variable env : Env.

Lemma instance_fold (ts : list Timer) :
  forall w, instance (fold_left (fire env) ts w) = instance w.
Proof.
  induction ts as [|t ts IH]; intros w; simpl; [reflexivity|].
  rewrite IH. unfold fire. destruct (is_pending (tid t) w); [|reflexivity].
  now destruct (run_task_keeps_outer env (task t) (clearTimeout (tid t) w))
    as [_ ->].
Qed.

Lemma instance_tick (w : World) : instance (tick env w) = instance w.
Proof. unfold tick. now rewrite instance_fold. Qed.

Lemma same_render_run (r : Render) (s : list Action) :
  forall w i, instance w = Some i -> rendered i = r ->
              same_render_script r s ->
              run env s w = advance env (ticks s) w.
Proof.
  induction s as [|a s IH]; intros w i Hi Hr Hs; [reflexivity|].
  inversion Hs as [|a' s' Ha Hs' E]; subst a' s'.
  change (run env (a :: s) w) with (run env s (step env w a)).
  destruct Ha as [->| ->].
  - change (ticks (Tick :: s)) with (S (ticks s)).
    rewrite advance_S. simpl step.
    apply (IH (tick env w) i); [now rewrite instance_tick | exact Hr | exact Hs'].
  - change (ticks (Rerender r :: s)) with (ticks s).
    assert (Hsame : rerender r w = w).
    { unfold rerender. rewrite Hi, Hr.
      now rewrite (proj2 (same_deps_iff r r) eq_refl). }
    simpl step. rewrite Hsame. now apply (IH w i).
Qed.

(** The effect on a world without pending timers: it waits, then the
    deferred action of the render it was run for fires. *)
Lemma effect_waits (r : Render) (w : World) (j : nat) :
  queue w = [] -> j < 1500 ->
  advance env j (run_effect r w) = idle env j (run_effect r w).
Proof.
  intros Hq Hj. apply advance_idle. unfold run_effect. simpl. rewrite Hq.
  intros t [<-|[]]. simpl. lia.
Qed.

Lemma effect_fires (r : Render) (w : World) :
  queue w = [] ->
  advance env 1500 (run_effect r w)
  = fst (post_timer_action env r
           (mkWorld (now w + 1500) (S (next_id w)) []
                    (drift_through env (now w) 1500 (loc w)) (trace w)
                    (Some (mkInstance r (next_id w))))).
Proof.
  intros Hq. change 1500 with (S 1499) at 1.
  rewrite (@advance_single env 1499 (run_effect r w)
             (mkTimer (next_id w) (now w + 1500) (PostTimer r))).
  - reflexivity.
  - unfold run_effect. simpl. now rewrite Hq.
  - reflexivity.
Qed.

End Renders.

(** Renders that bring the same [onComplete], [redirectTo] and
    [navigate] are invisible: however they are interleaved with the
    passing of time, the instance ends in the world it would have reached
    had only the time passed - the delay is neither restarted nor is
    anything done twice. *)
Theorem same_render_is_invisible :
  forall (env : Env) (r : Render) (t0 : nat) (l : Location)
         (s : list Action),
    same_render_script r s ->
    run env s (mount r (boot t0 l))
    = advance env (ticks s) (mount r (boot t0 l)).
Proof.
  intros env r t0 l s Hs.
  apply (@same_render_run env r s (mount r (boot t0 l)) (mkInstance r 1));
    [reflexivity | reflexivity | exact Hs].
Qed.

Lemma same_render_is_invisible_witness :
  same_render_script render_menu [Tick; Rerender render_menu; Tick]
  /\ run env_hash_router [Tick; Rerender render_menu; Tick]
       (mount render_menu (boot 0 root_location))
     = advance env_hash_router (ticks [Tick; Rerender render_menu; Tick])
         (mount render_menu (boot 0 root_location)).
Proof.
  assert (H : same_render_script render_menu
                [Tick; Rerender render_menu; Tick]).
  { constructor; [now left|]. constructor; [now right|].
    constructor; [now left|]. constructor. }
  split; [exact H|].
  apply (@same_render_is_invisible env_hash_router render_menu 0
           root_location _ H).
Defined.

(** A render that changes a dependency before the delay has elapsed
    starts the delay again: nothing is recorded for another 1500 units,
    and what then runs is the deferred action of the new render - the one
    of the old render never runs. *)
Theorem changed_deps_restart_delay :
  forall (env : Env) (r r' : Render) (t0 : nat) (l : Location) (k : nat),
    k < 1500 -> same_deps r r' = false ->
    let w := rerender r' (advance env k (mount r (boot t0 l))) in
    (forall j, j < 1500 -> trace (advance env j w) = [])
    /\ advance env 1500 w
       = fst (post_timer_action env r'
                (mkWorld (t0 + k + 1500) 3 []
                         (drift_through env (t0 + k) 1500
                            (drift_through env t0 k l))
                         [] (Some (mkInstance r' 2)))).
Proof.
  intros env r r' t0 l k Hk Hd w. subst w.
  rewrite before_expiry by exact Hk. rewrite mount_boot.
  assert (E : rerender r'
                (idle env k
                   (mkWorld t0 2 [mkTimer 1 (t0 + 1500) (PostTimer r)] l []
                            (Some (mkInstance r 1))))
              = run_effect r'
                  (mkWorld (t0 + k) 2 [] (drift_through env t0 k l) [] None)).
  { unfold rerender, idle. cbn [instance rendered timer]. rewrite Hd.
    reflexivity. }
  rewrite E. split.
  - intros j Hj. now rewrite effect_waits.
  - now rewrite effect_fires.
Qed.

Lemma changed_deps_restart_delay_witness :
  1000 < 1500
  /\ same_deps (mkRender (mkProps (Some 7) None) 0) render_menu = false
  /\ trace (advance env_hash_router 1499
              (rerender render_menu
                 (advance env_hash_router 1000
                    (mount (mkRender (mkProps (Some 7) None) 0)
                           (boot 0 root_location))))) = [].
Proof.
  assert (H : 1000 < 1500) by lia.
  destruct (@changed_deps_restart_delay env_hash_router
              (mkRender (mkProps (Some 7) None) 0) render_menu 0
              root_location 1000 H eq_refl) as [H1 _].
  split; [exact H|]. split; [reflexivity|]. apply H1. lia.
Defined.

Lemma navigations_app (a b : list (nat * Event)) :
  navigations (a ++ b) = navigations a ++ navigations b.
Proof. apply flat_map_app. Qed.

(** The world after the deferred action of an instance without props. *)
Lemma default_fired (env : Env) (nav t0 : nat) (l : Location) :
  exists tr lc,
    advance env 1500 (mount (mkRender (mkProps None None) nav) (boot t0 l))
    = mkWorld (t0 + 1500) 2 [] lc tr
              (Some (mkInstance (mkRender (mkProps None None) nav) 1))
    /\ navigations tr = [(t0 + 1500, "/home")].
Proof.
  rewrite outer_timer_fires. unfold at_fire. run_action.
  destruct (call_navigate env nav "/home" (drift_through env t0 1500 l));
    simpl; eexists; eexists; (split; [reflexivity|reflexivity]).
Qed.

Lemma rerender_new_navigate (nav nav' : nat) (w : World) :
  nav <> nav' ->
  instance w = Some (mkInstance (mkRender (mkProps None None) nav) 1) ->
  queue w = [] ->
  rerender (mkRender (mkProps None None) nav') w
  = run_effect (mkRender (mkProps None None) nav') w.
Proof.
  intros Hn Hi Hq. apply Nat.eqb_neq in Hn.
  destruct w as [n0 id0 q lc tr inst]. simpl in Hi, Hq. subst inst q.
  unfold rerender, same_deps. simpl. rewrite Hn. reflexivity.
Qed.

(** An instance that stays mounted after its deferred action ran and is
    then rendered with a new [navigate] function runs the effect again:
    1500 units later the router is asked a second time. *)
Theorem new_navigate_identity_repeats_request :
  forall (env : Env) (nav nav' t0 : nat) (l : Location),
    nav <> nav' ->
    let r := mkRender (mkProps None None) nav in
    let r' := mkRender (mkProps None None) nav' in
    let w := advance env 1500
               (rerender r' (advance env 1500 (mount r (boot t0 l)))) in
    navigations (trace w) = [(t0 + 1500, "/home"); (t0 + 3000, "/home")]
    /\ queue w = [].
Proof.
  intros env nav nav' t0 l Hn r r' w. subst r r' w.
  replace (t0 + 3000) with (t0 + 1500 + 1500) by lia.
  destruct (default_fired env nav t0 l) as (tr & lc & -> & Htr).
  rewrite (@rerender_new_navigate nav nav') by (reflexivity || exact Hn).
  rewrite effect_fires by reflexivity.
  cbn [now next_id loc trace].
  run_action.
  match goal with
  | |- context [call_navigate _ nav' "/home" ?x] =>
      destruct (call_navigate env nav' "/home" x)
  end; cbn [fst trace queue emit with_loc now];
    rewrite ?navigations_app, Htr; split; reflexivity.
Qed.

Lemma new_navigate_identity_repeats_request_witness :
  0 <> 1
  /\ navigations
       (trace (advance env_hash_router 1500
                 (rerender (mkRender (mkProps None None) 1)
                    (advance env_hash_router 1500
                       (mount (mkRender (mkProps None None) 0)
                              (boot 0 root_location))))))
     = [(0 + 1500, "/home"); (0 + 3000, "/home")].
Proof.
  assert (H : 0 <> 1) by discriminate.
  split; [exact H|].
  apply (@new_navigate_identity_repeats_request env_hash_router 0 1 0
           root_location H).
Defined.

(* ------------------------------------------------------------------ *)
(** ** Beyond the claims: no stale closure *)

Section Current.

Variable env : Env.

Lemma run_task_appends (k : Task) (w : World) :
  exists extra,
    queue (fst (run_task env k w)) = queue w ++ extra
    /\ (forall t, In t extra -> is_post_timer t = false).
Proof.
  destruct k as [r|clean]; simpl.
  - run_action.
    destruct (onComplete (props r)) as [cb|].
    + destruct (call_onComplete env cb (loc w)); exists [];
        simpl; rewrite app_nil_r; (split; [reflexivity|intros t []]).
    + destruct (redirectTo (props r)) as [target|];
        [destruct (truthy target)|];
        destruct (call_navigate env (navigate r) _ (loc w)); simpl;
        try (exists []; simpl; rewrite app_nil_r;
             (split; [reflexivity|intros t []])).
      destruct (setTimeout_throws env); simpl.
      * exists []. rewrite app_nil_r. split; [reflexivity|intros t []].
      * eexists. split; [reflexivity|]. intros t [<-|[]]. reflexivity.
  - unfold fallback_check, set_location_href, ret.
    destruct (_ =? _)%Z; exists []; simpl; rewrite app_nil_r;
      (split; [reflexivity|intros t []]).
Qed.

Lemma current_clear (id : nat) (w : World) :
  current w -> current (clearTimeout id w).
Proof.
  intros Hw t r0 Ht Hk. unfold clearTimeout in Ht. simpl in Ht.
  apply filter_In in Ht as [Ht _]. exact (Hw t r0 Ht Hk).
Qed.

Lemma current_fire (t : Timer) (w : World) :
  current w -> current (fire env w t).
Proof.
  intros Hw. unfold fire. destruct (is_pending (tid t) w); [|exact Hw].
  apply (current_clear (tid t)) in Hw.
  destruct (run_task_appends (task t) (clearTimeout (tid t) w))
    as (extra & Hq & Hx).
  destruct (run_task_keeps_outer env (task t) (clearTimeout (tid t) w))
    as [_ Hi].
  intros t' r0 Ht' Hk. rewrite Hq in Ht'. rewrite Hi.
  apply in_app_or in Ht' as [Ht'|Ht'].
  - exact (Hw t' r0 Ht' Hk).
  - specialize (Hx t' Ht'). unfold is_post_timer in Hx.
    rewrite Hk in Hx. discriminate.
Qed.

Lemma current_fold (ts : list Timer) :
  forall w, current w -> current (fold_left (fire env) ts w).
Proof.
  induction ts as [|t ts IH]; intros w Hw; simpl; [exact Hw|].
  apply IH, current_fire, Hw.
Qed.

Lemma current_cleared_own (i : Instance) (w : World) :
  instance w = Some i -> current w ->
  forall t r0, In t (queue (clearTimeout (timer i) w)) ->
               task t <> PostTimer r0.
Proof.
  intros Hi Hw t r0 Ht Hk. unfold clearTimeout in Ht. simpl in Ht.
  apply filter_In in Ht as [Ht Hne].
  destruct (Hw t r0 Ht Hk) as (i' & Hi' & _ & Hid).
  rewrite Hi in Hi'. injection Hi' as <-.
  rewrite Hid, Nat.eqb_refl in Hne. discriminate.
Qed.

Lemma current_effect (r : Render) (w : World) :
  (forall t r0, In t (queue w) -> task t <> PostTimer r0) ->
  current (run_effect r w).
Proof.
  intros H t r0 Ht Hk. unfold run_effect in *. simpl in *.
  apply in_app_or in Ht as [Ht|[<-|[]]].
  - destruct (H t r0 Ht Hk).
  - simpl in Hk. injection Hk as <-. eexists. repeat split.
Qed.

Lemma current_step (a : Action) (w : World) :
  current w -> current (step env w a).
Proof.
  intros Hw. destruct a as [|r'|]; simpl.
  - unfold tick. apply current_fold. exact Hw.
  - unfold rerender. destruct (instance w) as [i|] eqn:Ei; [|exact Hw].
    destruct (same_deps (rendered i) r'); [exact Hw|].
    apply current_effect. now apply current_cleared_own.
  - unfold unmount. destruct (instance w) as [i|] eqn:Ei; [|exact Hw].
    intros t r0 Ht Hk. exfalso.
    exact (@current_cleared_own i w Ei Hw t r0 Ht Hk).
Qed.

Lemma current_run (s : list Action) :
  forall w, current w -> current (run env s w).
Proof.
  induction s as [|a s IH]; intros w Hw; [exact Hw|].
  apply IH, current_step, Hw.
Qed.

End Current.

(** In every execution, a pending deferred action belongs to the
    mounted instance and closes over the values of its latest effect
    run, and its handle is the one the clean-up clears: the component
    never fires with stale props and never after its instance is gone. *)
Theorem pending_action_is_current :
  forall (env : Env) (r : Render) (t0 : nat) (l : Location)
         (s : list Action) (t : Timer) (r0 : Render),
    let w := run env s (mount r (boot t0 l)) in
    In t (queue w) -> task t = PostTimer r0 ->
    exists i, instance w = Some i /\ rendered i = r0 /\ tid t = timer i.
Proof.
  intros env r t0 l s t r0 w. subst w.
  apply (@current_run env s (mount r (boot t0 l))).
  apply current_effect. intros t' r' [].
Qed.

Lemma pending_action_is_current_witness :
  exists i,
    instance (run env_hash_router [Tick; Rerender render_menu; Tick]
                (mount (mkRender (mkProps (Some 7) None) 0)
                       (boot 0 root_location))) = Some i
    /\ rendered i = render_menu /\ 2 = timer i.
Proof.
  apply (@pending_action_is_current env_hash_router
           (mkRender (mkProps (Some 7) None) 0) 0 root_location
           [Tick; Rerender render_menu; Tick]
           (mkTimer 2 1501 (PostTimer render_menu)) render_menu).
  - vm_compute. left. reflexivity.
  - reflexivity.
Defined.

(* ------------------------------------------------------------------ *)
(** ** Beyond the claims: what the clean-up removes *)

Section Handles.

Variable env : Env.

Lemma run_task_shape (k : Task) (w : World) :
  let w' := fst (run_task env k w) in
  instance w' = instance w /\
  ((queue w' = queue w /\ next_id w' = next_id w) \/
   (exists d clean,
       queue w' = queue w ++ [mkTimer (next_id w) d (FallbackCheck clean)]
       /\ next_id w' = S (next_id w))).
Proof.
  cbv zeta. destruct k as [r|clean]; simpl.
  - run_action.
    destruct (onComplete (props r)) as [cb|].
    + destruct (call_onComplete env cb (loc w)); simpl; auto.
    + destruct (redirectTo (props r)) as [target|];
        [destruct (truthy target)|];
        destruct (call_navigate env (navigate r) _ (loc w)); simpl; auto.
      destruct (setTimeout_throws env); simpl; auto.
      split; [reflexivity|]. right. eauto.
  - unfold fallback_check, set_location_href, ret.
    destruct (_ =? _)%Z; simpl; auto.
Qed.

Lemma fresh_clear (id : nat) (w : World) : fresh w -> fresh (clearTimeout id w).
Proof.
  intros (H1 & H2 & H3). unfold clearTimeout. repeat split; simpl.
  - intros t Ht. apply filter_In in Ht as [Ht _]. now apply H1.
  - exact H2.
  - intros t i Ht. apply filter_In in Ht as [Ht _]. now apply H3.
Qed.

Lemma fresh_fire (t : Timer) (w : World) : fresh w -> fresh (fire env w t).
Proof.
  intros Hw. unfold fire. destruct (is_pending (tid t) w); [|exact Hw].
  apply (fresh_clear (tid t)) in Hw. destruct Hw as (H1 & H2 & H3).
  destruct (run_task_shape (task t) (clearTimeout (tid t) w))
    as [Hi [[Hq Hn]|(d & clean & Hq & Hn)]];
    unfold fresh; rewrite Hi, Hq, Hn.
  - repeat split; assumption.
  - repeat split.
    + intros t' Ht'. apply in_app_or in Ht' as [Ht'|[<-|[]]].
      * specialize (H1 t' Ht'). lia.
      * cbn [tid]. lia.
    + intros i Hi'. specialize (H2 i Hi'). lia.
    + intros t' i Ht' Hi' Hp. apply in_app_or in Ht' as [Ht'|[<-|[]]].
      * now apply (H3 t' i).
      * cbn [tid]. specialize (H2 i Hi'). lia.
Qed.

Lemma fresh_fold (ts : list Timer) :
  forall w, fresh w -> fresh (fold_left (fire env) ts w).
Proof.
  induction ts as [|t ts IH]; intros w Hw; simpl; [exact Hw|].
  apply IH, fresh_fire, Hw.
Qed.

Lemma fresh_effect (r : Render) (w : World) :
  (forall t, In t (queue w) -> tid t < next_id w) -> fresh (run_effect r w).
Proof.
  intros H. unfold run_effect. repeat split; simpl.
  - intros t Ht. apply in_app_or in Ht as [Ht|[<-|[]]].
    + specialize (H t Ht). lia.
    + simpl. lia.
  - intros i [= <-]. simpl. lia.
  - intros t i Ht [= <-] Hp. simpl.
    apply in_app_or in Ht as [Ht|[<-|[]]].
    + specialize (H t Ht). lia.
    + discriminate.
Qed.

Lemma fresh_step (a : Action) (w : World) : fresh w -> fresh (step env w a).
Proof.
  intros Hw. destruct a as [|r'|]; simpl.
  - unfold tick. apply fresh_fold. exact Hw.
  - unfold rerender. destruct (instance w) as [i|] eqn:Ei; [|exact Hw].
    destruct (same_deps (rendered i) r'); [exact Hw|].
    apply fresh_effect. apply (fresh_clear (timer i)) in Hw. apply Hw.
  - unfold unmount. destruct (instance w) as [i|] eqn:Ei; [|exact Hw].
    apply (fresh_clear (timer i)) in Hw. destruct Hw as (H1 & _ & _).
    repeat split; simpl; [exact H1 | discriminate | discriminate].
Qed.

Lemma fresh_run (s : list Action) :
  forall w, fresh w -> fresh (run env s w).
Proof.
  induction s as [|a s IH]; intros w Hw; [exact Hw|].
  apply IH, fresh_step, Hw.
Qed.

End Handles.

Lemma filter_all_in {A} (f : A -> bool) (l : list A) :
  (forall x, In x l -> f x = true) -> filter f l = l.
Proof.
  induction l as [|a l IH]; intros H; simpl; [reflexivity|].
  rewrite (H a) by now left. f_equal. apply IH. intros x Hx. apply H.
  now right.
Qed.

(** In every execution, unmounting removes the pending deferred action
    and nothing else: the timers left in the queue are exactly the
    fallback checks that were pending, in their order. *)
Theorem unmount_removes_only_outer_timer :
  forall (env : Env) (r : Render) (t0 : nat) (l : Location)
         (s : list Action),
    let w := run env s (mount r (boot t0 l)) in
    queue (unmount w) = filter (fun t => negb (is_post_timer t)) (queue w).
Proof.
  intros env r t0 l s w.
  assert (Hf : fresh w).
  { apply fresh_run, fresh_effect. intros t []. }
  assert (Hc : current w).
  { apply current_run, current_effect. intros t r0 []. }
  clearbody w. unfold unmount.
  destruct (instance w) as [i|] eqn:Ei.
  - unfold clearTimeout. simpl. apply filter_ext_in. intros t Ht.
    destruct (is_post_timer t) eqn:Hp.
    + unfold is_post_timer in Hp. destruct (task t) as [r0|] eqn:Hk;
        [|discriminate].
      destruct (Hc t r0 Ht Hk) as (i' & Hi' & _ & Hid).
      rewrite Ei in Hi'. injection Hi' as <-.
      now rewrite Hid, Nat.eqb_refl.
    + destruct Hf as (_ & _ & H3).
      specialize (H3 t i Ht Ei Hp).
      apply Nat.eqb_neq in H3. now rewrite H3.
  - symmetry. apply filter_all_in. intros t Ht.
    destruct (is_post_timer t) eqn:Hp; [|reflexivity].
    unfold is_post_timer in Hp. destruct (task t) as [r0|] eqn:Hk;
      [|discriminate].
    destruct (Hc t r0 Ht Hk) as (i' & Hi' & _).
    rewrite Ei in Hi'. discriminate.
Qed.

(** When the [try] block throws, nothing is scheduled: the queue is as
    it was, so no fallback check can later replace the ["#/home"] that
    the handler wrote, and the pathname is where the failing call left
    it. *)
Theorem failed_action_schedules_nothing :
  forall (env : Env) (r : Render) (w : World),
    snd (guarded_action env r w) = Exn ->
    let w' := fst (post_timer_action env r w) in
    queue w' = queue w
    /\ next_id w' = next_id w
    /\ loc w' = mkLocation (pathname (loc (fst (guarded_action env r w))))
                           "#/home".
Proof.
  intros env r w H w'. subst w'. revert H.
  unfold post_timer_action, try_catch.
  unfold guarded_action, catch_block, invoke_onComplete, navigate_to,
    schedule_fallback, external, bind, console_error, set_location_hash.
  destruct (onComplete (props r)) as [cb|].
  - destruct (call_onComplete env cb (loc w)); simpl;
      [discriminate|]. intros _. repeat split.
  - destruct (redirectTo (props r)) as [target|];
      [destruct (truthy target)|];
      destruct (call_navigate env (navigate r) _ (loc w)); simpl;
      try discriminate; try solve [intros _; repeat split; reflexivity].
    destruct (setTimeout_throws env); simpl; [|discriminate].
    intros _. repeat split.
Qed.

Lemma failed_action_schedules_nothing_witness :
  snd (guarded_action env_no_timers render_menu (boot 1500 root_location))
  = Exn
  /\ queue (fst (post_timer_action env_no_timers render_menu
                   (boot 1500 root_location))) = []
  /\ loc (fst (post_timer_action env_no_timers render_menu
                 (boot 1500 root_location))) = mkLocation "/" "#/home".
Proof.
  assert (H : snd (guarded_action env_no_timers render_menu
                     (boot 1500 root_location)) = Exn) by reflexivity.
  destruct (@failed_action_schedules_nothing env_no_timers render_menu
              (boot 1500 root_location) H) as (H1 & _ & H3).
  split; [exact H|]. split; [exact H1 | exact H3].
Defined.

(* ------------------------------------------------------------------ *)
(** ** Instances whose dependencies stay the same *)

(** The dependency array of the effect is [[onComplete, redirectTo,
    navigate]]: a render that changes one of the three runs the effect
    again, and with it - 1500 units later - the deferred action.  What
    follows is about instances that are rendered, any number of times,
    with the values they were mounted with. *)

Lemma ticks_only_script (r : Render) (n : nat) :
  same_render_script r (repeat Tick n).
Proof.
  induction n as [|n IH]; simpl; constructor; [now left | exact IH].
Qed.

Lemma at_least_split (a n : nat) : a <= n -> exists m, n = a + m.
Proof. intros H. exists (n - a). lia. Qed.

Lemma stable_run (env : Env) (r : Render) (t0 : nat) (l : Location)
    (s : list Action) :
  same_render_script r s ->
  run env s (mount r (boot t0 l))
  = advance env (ticks s) (mount r (boot t0 l)).
Proof.
  intros Hs.
  apply (@same_render_run env r s (mount r (boot t0 l)) (mkInstance r 1));
    [reflexivity | reflexivity | exact Hs].
Qed.

(** C3, as the claim states it, fails: an instance without props that
    is still mounted after its deferred action ran and is then rendered
    with a new [navigate] function asks the router for ["/home"] a second
    time. *)
Lemma default_request_repeats_after_new_navigate :
  navigations
    (trace (advance env_hash_router 1500
              (rerender (mkRender (mkProps None None) 1)
                 (advance env_hash_router 1500
                    (mount (mkRender (mkProps None None) 0)
                           (boot 0 root_location))))))
  = [(1500, "/home"); (3000, "/home")].
Proof. vm_compute. reflexivity. Qed.

(** C3, as the code has it: an instance mounted with neither
    [onComplete] nor [redirectTo], and rendered only with the [navigate]
    it was mounted with, records nothing for 1500 units of time; from
    then on the router has been asked for ["/home"], at [t0 + 1500],
    exactly once, and no timer is pending. *)
Theorem default_navigates_home_once_while_deps_stable :
  forall (env : Env) (nav t0 : nat) (l : Location) (s : list Action),
    let r := mkRender (mkProps None None) nav in
    let w := run env s (mount r (boot t0 l)) in
    same_render_script r s ->
    (ticks s < 1500 -> trace w = []) /\
    (1500 <= ticks s ->
     navigations (trace w) = [(t0 + 1500, "/home")] /\ queue w = []).
Proof.
  intros env nav t0 l s r w Hs. subst r w.
  rewrite (stable_run env t0 l Hs). split.
  - intros Hk. now rewrite before_expiry.
  - intros Hk. destruct (at_least_split Hk) as [m ->].
    rewrite advance_add, outer_timer_fires.
    run_action.
    destruct (call_navigate env nav "/home" (drift_through env t0 1500 l));
      simpl; now rewrite advance_quiet.
Qed.

Lemma default_navigates_home_once_while_deps_stable_witness :
  same_render_script (mkRender (mkProps None None) 0)
    (Rerender (mkRender (mkProps None None) 0) :: repeat Tick 2000)
  /\ 1500 <= ticks (Rerender (mkRender (mkProps None None) 0)
                     :: repeat Tick 2000)
  /\ navigations
       (trace (run env_throwing
                 (Rerender (mkRender (mkProps None None) 0) :: repeat Tick 2000)
                 (mount (mkRender (mkProps None None) 0)
                        (boot 0 root_location))))
     = [(0 + 1500, "/home")].
Proof.
  assert (Hs : same_render_script (mkRender (mkProps None None) 0)
                 (Rerender (mkRender (mkProps None None) 0)
                  :: repeat Tick 2000)).
  { constructor; [now right | apply ticks_only_script]. }
  assert (Hk : 1500 <= ticks (Rerender (mkRender (mkProps None None) 0)
                              :: repeat Tick 2000)).
  { vm_compute. apply Nat.leb_le. vm_compute. reflexivity. }
  split; [exact Hs|]. split; [exact Hk|].
  apply (proj2 (@default_navigates_home_once_while_deps_stable
                  env_throwing 0 0 root_location _ Hs) Hk).
Defined.







(** The fallback check in general, on an instance rendered only with
    the values it was mounted with: for every usable [redirectTo] whose
    router request returned and whose check could be scheduled, 300 units
    after the request the check assigns ["#/" + cleanPath] to
    [location.href] when the pathname does not contain the cleaned path,
    leaving the pathname as it was, and it assigns nothing exactly when
    the pathname contains it.  Either way no timer is left. *)
Theorem fallback_check_decides_while_deps_stable :
  forall (env : Env) (target : string) (nav t0 : nat) (l : Location)
         (s : list Action),
    truthy target = true ->
    threw (requested env target nav t0 l) = false ->
    setTimeout_throws env = false ->
    same_render_script (redirecting target nav) s ->
    ticks s = 1800 ->
    let clean := cleanPath target in
    let w2 := run env s (mount (redirecting target nav) (boot t0 l)) in
    let at_check := checked env target nav t0 l in
    (~ contains (pathname at_check) clean ->
     trace w2 = [(t0 + 1500, EvNavigate clean);
                 (t0 + 1800, EvSetHref ("#/" ++ clean)%string)]
     /\ loc w2 = mkLocation (pathname at_check) ("#/" ++ clean)%string)
    /\ (href_writes (trace w2) = [] <-> contains (pathname at_check) clean)
    /\ queue w2 = [].
Proof.
  intros env target nav t0 l s Ht Ho Hd Hs Hk.
  rewrite (stable_run env t0 l Hs), Hk.
  assert (E : advance env 1800 (mount (redirecting target nav) (boot t0 l))
              = advance env 300
                  (advance env 1500
                     (mount (redirecting target nav) (boot t0 l))))
    by (change 1800 with (1500 + 300); apply advance_add).
  rewrite E.
  exact (@fallback_decision_time_only env target nav t0 l Ht Ho Hd).
Qed.

Lemma fallback_check_decides_while_deps_stable_witness :
  truthy "orders/42" = true
  /\ threw (requested env_hash_router "orders/42" 0 0 root_location) = false
  /\ setTimeout_throws env_hash_router = false
  /\ same_render_script (redirecting "orders/42" 0)
       (Rerender (redirecting "orders/42" 0) :: repeat Tick 1800)
  /\ ticks (Rerender (redirecting "orders/42" 0) :: repeat Tick 1800) = 1800
  /\ trace (run env_hash_router
              (Rerender (redirecting "orders/42" 0) :: repeat Tick 1800)
              (mount (redirecting "orders/42" 0) (boot 0 root_location)))
     = [(0 + 1500, EvNavigate "orders/42");
        (0 + 1800, EvSetHref "#/orders/42")].
Proof.
  assert (Hs : same_render_script (redirecting "orders/42" 0)
                 (Rerender (redirecting "orders/42" 0) :: repeat Tick 1800)).
  { constructor; [now right | apply ticks_only_script]. }
  assert (Hk : ticks (Rerender (redirecting "orders/42" 0)
                      :: repeat Tick 1800) = 1800).
  { vm_compute. reflexivity. }
  destruct (@fallback_check_decides_while_deps_stable env_hash_router
              "orders/42" 0 0 root_location _ eq_refl eq_refl eq_refl Hs Hk)
    as (H & _ & _).
  split; [reflexivity|]. split; [reflexivity|]. split; [reflexivity|].
  split; [exact Hs|]. split; [exact Hk|].
  apply H. apply indexOf_absent. vm_compute. reflexivity.
Defined.

(** Whatever the props and however the callback, the router and the
    scheduler behave, an instance that is rendered only with the values
    it was mounted with is at rest 1800 units after mounting: no timer is
    pending, the trace no longer grows, and all in all it has made
    between one and three calls. *)
Theorem instance_at_rest_while_deps_stable :
  forall (env : Env) (r : Render) (t0 : nat) (l : Location)
         (s : list Action),
    same_render_script r s ->
    1800 <= ticks s ->
    let w := run env s (mount r (boot t0 l)) in
    queue w = []
    /\ trace w = trace (advance env 1800 (mount r (boot t0 l)))
    /\ 1 <= length (trace w) <= 3.
Proof.
  intros env r t0 l s Hs Hk w. subst w.
  rewrite (stable_run env t0 l Hs).
  destruct (at_least_split Hk) as [m ->].
  destruct (rest_by_1800_time_only env r t0 l m) as (Hq & Ht & Hl).
  split; [exact Hq|]. split; [exact Ht|]. rewrite Ht. exact Hl.
Qed.

Lemma instance_at_rest_while_deps_stable_witness :
  same_render_script render_menu (Rerender render_menu :: repeat Tick 2500)
  /\ 1800 <= ticks (Rerender render_menu :: repeat Tick 2500)
  /\ queue (run env_throwing (Rerender render_menu :: repeat Tick 2500)
              (mount render_menu (boot 0 root_location))) = [].
Proof.
  assert (Hs : same_render_script render_menu
                 (Rerender render_menu :: repeat Tick 2500)).
  { constructor; [now right | apply ticks_only_script]. }
  assert (Hk : 1800 <= ticks (Rerender render_menu :: repeat Tick 2500)).
  { vm_compute. apply Nat.leb_le. vm_compute. reflexivity. }
  split; [exact Hs|]. split; [exact Hk|].
  apply (@instance_at_rest_while_deps_stable env_throwing render_menu 0
           root_location _ Hs Hk).
Defined.
